(** * One-way folder synchronisation (main.py): model and properties

    The program mirrors a source folder into a replica folder.  The class
    [SyncFiles] lists both trees with [os.scandir], creates and deletes
    replica folders, copies, replaces and deletes replica files, and writes
    one log line per change.  The module-level code validates [sys.argv] and
    calls [full_sync] forever.

    The embedding is shallow.  The operating system is a finite map from
    component paths to nodes, Python list objects live in a heap of lists
    addressed by location, and every method of the class is a function in a
    state-and-exception monad over that world. *)

From Stdlib Require Import Ascii ZArith Lia.
From stdpp Require Import base option list gmap strings.

(** ** Python strings *)

(** [str.split(sep)] for a one-character separator: the pieces between the
    occurrences of the separator; the empty string gives one empty piece. *)
Fixpoint split_on (is_sep : ascii → bool) (s : string) : list string :=
  match s with
  | EmptyString => [EmptyString]
  | String c s' =>
      if is_sep c then EmptyString :: split_on is_sep s'
      else match split_on is_sep s' with
           | piece :: pieces => String c piece :: pieces
           | [] => [String c EmptyString]
           end
  end.

Definition split (sep : ascii) (s : string) : list string :=
  split_on (Ascii.eqb sep) s.

(** [sep.join(pieces)] *)
Definition join (sep : ascii) (pieces : list string) : string :=
  String.concat (String sep EmptyString) pieces.

Definition backslash : ascii := "\"%char.
Definition slash : ascii := "/"%char.

(** The expression ["\\".join(entry.path.split("\\")[2::])] of [list_dirs]
    and [list_files]. *)
Definition relative_name (entry_path : string) : string :=
  join backslash (drop 2 (split backslash entry_path)).

Fixpoint last_char (s : string) : option ascii :=
  match s with
  | EmptyString => None
  | String c EmptyString => Some c
  | String _ s' => last_char s'
  end.

Definition first_char (s : string) : option ascii :=
  match s with
  | EmptyString => None
  | String c _ => Some c
  end.

Fixpoint string_forallb (f : ascii → bool) (s : string) : bool :=
  match s with
  | EmptyString => true
  | String c s' => f c && string_forallb f s'
  end.

(** ** The file system *)

Record file_stat := FileStat { st_mtime : Z; st_mode : Z }.

Inductive node :=
  | Dir
  | File (data : list Byte.byte) (stat : file_stat).

Definition is_dir (nd : node) : bool :=
  match nd with Dir => true | File _ _ => false end.

Definition is_file (nd : node) : bool :=
  match nd with Dir => false | File _ _ => true end.

Definition holds_dir (o : option node) : bool :=
  match o with Some Dir => true | _ => false end.

(** A file system maps a component path (the names from the current
    directory down to the entry) to the node found there; the empty path is
    the current directory. *)
Abbreviation filesystem := (gmap (list string) node).

(** Exceptions the modelled calls raise. *)
Inductive exn :=
  | FileNotFoundError
  | NotADirectoryError
  | IsADirectoryError
  | FileExistsError
  | SameFileError
  | IndexError
  | RecursionError
  | TypeError
  | ValueError.

(** Mutating file-system calls, recorded in the order they succeed. *)
Inductive fs_call :=
  | Mkdir (p : string)
  | Rmtree (p : string)
  | Copy2 (src dst : string)
  | Remove (p : string).

(** A log line: the action tag and the path [add_log] was given.  The
    timestamp prefix comes from the wall clock and is left out. *)
Record log_entry := LogEntry { le_action : string; le_path : string }.

(** Locations of Python list objects. *)
Abbreviation loc := nat.

Record world := World {
  fs : filesystem;
  heap : list (list string);
  log : list log_entry;
  calls : list fs_call
}.

Definition set_fs (m : filesystem) (w : world) : world :=
  World m (heap w) (log w) (calls w).
Definition set_heap (h : list (list string)) (w : world) : world :=
  World (fs w) h (log w) (calls w).
Definition add_call (c : fs_call) (w : world) : world :=
  World (fs w) (heap w) (log w) (calls w ++ [c]).
Definition add_entry (e : log_entry) (w : world) : world :=
  World (fs w) (heap w) (log w ++ [e]) (calls w).

(** ** The monad of the methods: state plus exceptions *)

Inductive outcome (A : Type) :=
  | Return (a : A) (w : world)
  | Raise (e : exn) (w : world).
Arguments Return {A} a w.
Arguments Raise {A} e w.

Definition M (A : Type) : Type := world → outcome A.

Definition ret {A} (a : A) : M A := λ w, Return a w.
Definition raise {A} (e : exn) : M A := λ w, Raise e w.
Definition bind {A B} (m : M A) (k : A → M B) : M B :=
  λ w, match m w with
       | Return a w' => k a w'
       | Raise e w' => Raise e w'
       end.

Notation "'let*' x ':=' e 'in' k" := (bind e (λ x, k))
  (at level 10, x name, e at level 100, k at level 200, only parsing).
Notation "e ';;;' k" := (bind e (λ _, k))
  (at level 100, k at level 200, right associativity, only parsing).

(** [for x in xs: body] *)
Fixpoint for_each {A} (xs : list A) (body : A → M unit) : M unit :=
  match xs with
  | [] => ret tt
  | x :: xs' => body x ;;; for_each xs' body
  end.

(** [for i in range(n): body] *)
Definition for_range (n : nat) (body : nat → M unit) : M unit :=
  for_each (seq 0 n) body.

(** ** Python list objects *)

(** A new list object holding [xs]: [list(xs)] or a list display. *)
Definition list_new (xs : list string) : M loc :=
  λ w, Return (length (heap w)) (set_heap (heap w ++ [xs]) w).

Definition list_read (l : loc) : M (list string) :=
  λ w, Return (default [] (heap w !! l)) w.

(** [l.append(x)] mutates the object in place. *)
Definition list_append (l : loc) (x : string) : M unit :=
  λ w, Return tt (set_heap (alter (λ xs, xs ++ [x]) l (heap w)) w).

(** [len(l)] *)
Definition list_len (l : loc) : M nat :=
  let* xs := list_read l in ret (length xs).

(** [l[i]] for [i >= 0] *)
Definition list_get (l : loc) (i : nat) : M string :=
  let* xs := list_read l in
  match xs !! i with
  | Some x => ret x
  | None => raise IndexError
  end.

(** [list(l)]: a fresh object with the same items. *)
Definition list_copy (l : loc) : M loc :=
  let* xs := list_read l in list_new xs.

(** ** Component paths *)

(** [strip d q] is the rest of [q] below [d], when [q] starts with [d]. *)
Fixpoint strip (d q : list string) : option (list string) :=
  match d, q with
  | [], _ => Some q
  | a :: d', b :: q' => if decide (a = b) then strip d' q' else None
  | _ :: _, [] => None
  end.

(** The directory holding the entry at [q]. *)
Definition parent (q : list string) : list string :=
  take (pred (length q)) q.

(** The entries directly inside directory [d], in the order of the map. *)
Definition children (m : filesystem) (d : list string) : list (string * node) :=
  omap (λ kv, match strip d kv.1 with
              | Some [n] => Some (n, kv.2)
              | _ => None
              end) (map_to_list m).

(** What [os.scandir] yields for an entry. *)
Record DirEntry := MkEntry {
  entry_name : string;
  entry_path : string;
  entry_node : node
}.

(** ** hashlib *)

(** A hash object is the bytes fed to it so far: successive [update] calls
    hash the concatenation of their arguments. *)
Definition hash_object := list Byte.byte.
Definition hashlib_new : hash_object := [].
Definition hash_update (h : hash_object) (data : list Byte.byte) : hash_object :=
  h ++ data.

Definition BUFF_SIZE : N := 65536.

(** The loop [while True: data = f.read(size); if not data: break;
    h.update(data)] over the unread rest of an open file.  Each round
    consumes [fuel]; a file of [n] bytes needs at most [n + 1] rounds. *)
Fixpoint read_loop (fuel : nat) (size : nat) (h : hash_object)
    (unread : list Byte.byte) : hash_object :=
  match fuel with
  | O => h
  | S fuel' =>
      match take size unread with
      | [] => h
      | data => read_loop fuel' size (hash_update h data) (drop size unread)
      end
  end.

(** ** str.isnumeric and int *)

(** Python strings are modelled with 8-bit characters, read as the code points
    U+0000 to U+00FF.  In that range the characters with a Unicode numeric
    value are the digits 0-9, the superscripts U+00B2, U+00B3, U+00B9 and the
    fractions U+00BC, U+00BD, U+00BE. *)
Definition isnumeric_char (c : ascii) : bool :=
  let n := nat_of_ascii c in
  ((48 <=? n) && (n <=? 57))
  || bool_decide (n ∈ [178; 179; 185; 188; 189; 190]).

Definition isdecimal_char (c : ascii) : bool :=
  let n := nat_of_ascii c in (48 <=? n) && (n <=? 57).

(** [s.isnumeric()]: at least one character and all of them numeric. *)
Definition str_isnumeric (s : string) : bool :=
  match s with
  | EmptyString => false
  | _ => string_forallb isnumeric_char s
  end.

Fixpoint decimal_value (acc : Z) (s : string) : Z :=
  match s with
  | EmptyString => acc
  | String c s' => decimal_value (10 * acc + Z.of_nat (nat_of_ascii c - 48)) s'
  end.

(** [int(s)] on a string without sign, blanks or underscores: the value of
    its decimal digits, or [ValueError] when it is empty or has another
    character.  (The strings [main] converts have passed [isnumeric].) *)
Definition int_of_str (s : string) : option Z :=
  match s with
  | EmptyString => None
  | _ => if string_forallb isdecimal_char s then Some (decimal_value 0 s) else None
  end.

(** ** Well-formed file systems *)

(** A name an entry can have: not empty, not [.] or [..], and free of both
    separators and of the drive colon. *)
Definition name_char_ok (c : ascii) : bool :=
  negb (Ascii.eqb c backslash) && negb (Ascii.eqb c slash)
  && negb (Ascii.eqb c ":"%char).

Definition valid_name (n : string) : bool :=
  bool_decide (n ≠ "") && bool_decide (n ≠ ".") && bool_decide (n ≠ "..")
  && string_forallb name_char_ok n.

(** The current directory is a directory, every other entry has a valid
    name and sits in a directory. *)
Definition wf_key (m : filesystem) (q : list string) : bool :=
  match q with
  | [] => true
  | _ => forallb valid_name q && holds_dir (m !! parent q)
  end.

Definition wf_fs (m : filesystem) : Prop :=
  m !! [] = Some Dir ∧ map_Forall (λ q _, wf_key m q = true) m.

(** ** The class and the module-level code *)

Record SyncFiles := MkSyncFiles {
  source_path : string;
  replica_path : string;
  log_path : string;
  sync_interval : string;
  source_folders : loc;
  replica_folders : loc;
  source_files : loc;
  replica_files : loc
}.

(** The four list objects created once, when the [def] of [__init__] is
    executed, for the default values [[]] of its last four parameters. *)
Record defaults := MkDefaults {
  default_source_folders : loc;
  default_replica_folders : loc;
  default_source_files : loc;
  default_replica_files : loc
}.

(** ** Sample inputs

    Trees and arguments on which the program is run in the properties
    below.  The digest used on them is the content itself, which is as good
    as a hash that never collides. *)

Definition content (s : string) : list Byte.byte := String.list_byte_of_string s.

Definition plain_digest (d : list Byte.byte) : string :=
  String.string_of_list_byte d.

Definition as_listed (l : list (string * node)) : list (string * node) := l.

Definition undisturbed (k : nat) (m : filesystem) : filesystem := m.

Definition tree (l : list (list string * node)) : filesystem := list_to_map l.

Definition stat_a : file_stat := FileStat 1700000000 420.

(** An instance for the roots [.\source] and [.\replica], its four lists
    being the objects 0 to 3. *)
Definition sample_self : SyncFiles :=
  MkSyncFiles ".\source" ".\replica" "log.txt" "5" 0 1 2 3.

Definition sample_defaults : defaults := MkDefaults 0 1 2 3.

Definition empty_lists : list (list string) := [[]; []; []; []].

(** [source\a\b\c\file.txt] and an empty replica. *)
Definition nested_tree : filesystem :=
  tree [([], Dir); (["source"], Dir); (["replica"], Dir);
        (["source"; "a"], Dir); (["source"; "a"; "b"], Dir);
        (["source"; "a"; "b"; "c"], Dir);
        (["source"; "a"; "b"; "c"; "file.txt"], File (content "hello") stat_a)].

Definition nested_world : world := World nested_tree empty_lists [] [].

(** The source has the directory [x], the replica a file of that name. *)
Definition clash_tree : filesystem :=
  tree [([], Dir); (["source"], Dir); (["replica"], Dir);
        (["source"; "x"], Dir);
        (["replica"; "x"], File (content "old") stat_a)].

Definition clash_world : world := World clash_tree empty_lists [] [].






(** Roots given without a leading [.\]. *)
Definition bare_self : SyncFiles :=
  MkSyncFiles "source" "replica" "log.txt" "5" 0 1 2 3.

Definition bare_tree : filesystem :=
  tree [([], Dir); (["source"], Dir); (["replica"], Dir);
        (["source"; "a"], Dir); (["source"; "a"; "b"], Dir)].

Definition bare_world : world := World bare_tree empty_lists [] [].

(** The same on a platform whose separator is the slash. *)
Definition posix_self : SyncFiles :=
  MkSyncFiles "./source" "./replica" "log.txt" "5" 0 1 2 3.

(** A run of the program: a log file, one file to copy. *)
Definition run_tree : filesystem :=
  tree [([], Dir); (["source"], Dir); (["replica"], Dir);
        (["log.txt"], File [] stat_a);
        (["source"; "f.txt"], File (content "data") stat_a)].

Definition run_world : world := World run_tree empty_lists [] [].

Definition run_argv : list string :=
  ["main.py"; ".\source"; ".\replica"; "log.txt"; "5"].

(** The interval written as the superscript two, U+00B2. *)
Definition superscript_two : string := String (ascii_of_nat 178) EmptyString.

Definition odd_argv : list string :=
  ["main.py"; ".\source"; ".\replica"; "log.txt"; superscript_two].

(** The tree of a run whose source directory is not there. *)
Definition gone_world : world :=
  World (tree [([], Dir); (["replica"], Dir); (["log.txt"], File [] stat_a)])
    empty_lists [] [].

(** During the first pause the source directory is removed with all it
    holds; during the second it is put back. *)
Definition source_away_then_back (k : nat) (m : filesystem) : filesystem :=
  match k with
  | O => filter (λ kv, ¬ ["source"] `prefix_of` kv.1) m
  | _ => <[["source"] := Dir]> m
  end.

Section SyncTool.

(** The platform: [os.sep], the SHA-256 function, the order in which
    [os.scandir] yields the entries of a directory, and what other
    processes do to the file system during the [k]-th [time.sleep]. *)
Variable os_sep : ascii.
Variable sha256 : list Byte.byte → string.
Variable scandir_order : list (string * node) → list (string * node).
Variable external : nat → filesystem → filesystem.

(** *** os.path *)

(** Both [os.sep] and [/] separate components ([/] is [os.altsep] where
    [os.sep] is the backslash). *)
Definition is_sep (c : ascii) : bool :=
  Ascii.eqb c os_sep || Ascii.eqb c slash.

(** The components a path string names, from the current directory; empty
    pieces and [.] are skipped. *)
Definition components (p : string) : list string :=
  filter (λ s, s ≠ "" ∧ s ≠ ".") (split_on is_sep p).

Definition lookup_path (m : filesystem) (p : string) : option node :=
  match p with
  | EmptyString => None
  | _ => m !! components p
  end.

(** A path to which a name is appended without a separator: the empty path,
    one that ends in a separator, or a bare drive. *)
Definition open_ended (p : string) : bool :=
  match last_char p with
  | None => true
  | Some c => is_sep c || (Ascii.eqb os_sep backslash && Ascii.eqb c ":"%char)
  end.

Definition append_name (p name : string) : string :=
  if open_ended p then p +:+ name else p +:+ String os_sep EmptyString +:+ name.

(** [os.path.join(a, b)] for two arguments, drive letters in [b] apart: a
    rooted [b] replaces [a]. *)
Definition os_path_join (a b : string) : string :=
  match first_char b with
  | Some c => if is_sep c then b else append_name a b
  | None => append_name a b
  end.

(** [os.path.basename(p)] *)
Definition os_path_basename (p : string) : string :=
  List.last (split_on is_sep p) EmptyString.

(** [os.path.abspath(p)]: the normalised path from the current directory,
    which stands for the root. *)
Definition os_path_abspath (p : string) : string :=
  String os_sep EmptyString +:+ join os_sep (components p).

Definition os_path_exists (p : string) : M bool :=
  λ w, Return (bool_decide (is_Some (lookup_path (fs w) p))) w.

Definition os_path_isdir (p : string) : M bool :=
  λ w, Return (holds_dir (lookup_path (fs w) p)) w.

(** *** os and shutil *)

Definition os_scandir (path : string) : M (list DirEntry) :=
  λ w, match lookup_path (fs w) path with
       | None => Raise FileNotFoundError w
       | Some (File _ _) => Raise NotADirectoryError w
       | Some Dir =>
           Return (map (λ e, MkEntry e.1 (append_name path e.1) e.2)
                     (scandir_order (children (fs w) (components path)))) w
       end.

(** The node found for the directory that has to hold a new entry at [q]. *)
Definition holder (m : filesystem) (q : list string) : option node :=
  match q with
  | [] => None
  | _ => m !! parent q
  end.

Definition os_mkdir (p : string) : M unit :=
  λ w, match lookup_path (fs w) p with
       | Some _ => Raise FileExistsError w
       | None =>
           match holder (fs w) (components p) with
           | None => Raise FileNotFoundError w
           | Some (File _ _) => Raise NotADirectoryError w
           | Some Dir =>
               Return tt (add_call (Mkdir p)
                            (set_fs (<[components p := Dir]> (fs w)) w))
           end
       end.

(** [shutil.rmtree(p)] removes the directory and everything below it. *)
Definition shutil_rmtree (p : string) : M unit :=
  λ w, match lookup_path (fs w) p with
       | None => Raise FileNotFoundError w
       | Some (File _ _) => Raise NotADirectoryError w
       | Some Dir =>
           Return tt (add_call (Rmtree p)
                        (set_fs (filter (λ kv, ¬ components p `prefix_of` kv.1)
                                   (fs w)) w))
       end.

Definition os_remove (p : string) : M unit :=
  λ w, match lookup_path (fs w) p with
       | None => Raise FileNotFoundError w
       | Some Dir => Raise IsADirectoryError w
       | Some (File _ _) =>
           Return tt (add_call (Remove p)
                        (set_fs (delete (components p) (fs w)) w))
       end.

(** [shutil.copy2(src, dst)]: a directory [dst] stands for the file of the
    same name inside it; content and metadata of [src] are written to the
    target, which is created when its directory exists. *)
Definition shutil_copy2 (src dst : string) : M unit :=
  λ w,
    let target :=
      if holds_dir (lookup_path (fs w) dst)
      then os_path_join dst (os_path_basename src) else dst in
    match lookup_path (fs w) src with
    | None => Raise FileNotFoundError w
    | Some Dir => Raise IsADirectoryError w
    | Some (File data stat) =>
        match lookup_path (fs w) target with
        | Some Dir => Raise IsADirectoryError w
        | Some (File _ _) =>
            if bool_decide (components src = components target)
            then Raise SameFileError w
            else Return tt (add_call (Copy2 src dst)
                   (set_fs (<[components target := File data stat]> (fs w)) w))
        | None =>
            match holder (fs w) (components target) with
            | None => Raise FileNotFoundError w
            | Some (File _ _) => Raise NotADirectoryError w
            | Some Dir =>
                Return tt (add_call (Copy2 src dst)
                   (set_fs (<[components target := File data stat]> (fs w)) w))
            end
        end
    end.

(** [open(p, 'rb')] followed by the read loop of [compare_files]. *)
Definition hash_file (p : string) : M hash_object :=
  λ w, match lookup_path (fs w) p with
       | None => Raise FileNotFoundError w
       | Some Dir => Raise IsADirectoryError w
       | Some (File data _) =>
           Return (read_loop (S (length data)) (N.to_nat BUFF_SIZE)
                     hashlib_new data) w
       end.

Definition hexdigest (h : hash_object) : string := sha256 h.

(** [time.sleep] during the [k]-th pause: other processes change the file
    system meanwhile. *)
Definition time_sleep (k : nat) (secs : Z) : M unit :=
  λ w, Return tt (set_fs (external k (fs w)) w).

(** *** SyncFiles *)

(** [__init__]: each list argument is copied with [list(...)]. *)
Definition __init__ (source_path replica_path log_path sync_interval : string)
    (source_folders replica_folders source_files replica_files : loc)
    : M SyncFiles :=
  let* source_folders' := list_copy source_folders in
  let* replica_folders' := list_copy replica_folders in
  let* source_files' := list_copy source_files in
  let* replica_files' := list_copy replica_files in
  ret (MkSyncFiles source_path replica_path log_path sync_interval
         source_folders' replica_folders' source_files' replica_files').

(** The [class] statement: the default list objects are created here. *)
Definition class_SyncFiles : M defaults :=
  let* a := list_new [] in
  let* b := list_new [] in
  let* c := list_new [] in
  let* d := list_new [] in
  ret (MkDefaults a b c d).

(** [SyncFiles(source_path, replica_path, log_path, sync_interval)] with the
    four lists left to their defaults. *)
Definition new_SyncFiles (dflt : defaults)
    (source_path replica_path log_path sync_interval : string) : M SyncFiles :=
  __init__ source_path replica_path log_path sync_interval
    (default_source_folders dflt) (default_replica_folders dflt)
    (default_source_files dflt) (default_replica_files dflt).

(** [add_log]: one more line for [action] and [changes_path], printed and
    appended to the log file. *)
Definition add_log (self : SyncFiles) (action changes_path file_path : string)
    : M unit :=
  λ w, Return tt (add_entry (LogEntry action changes_path) w).

(** [list_dirs]; [fuel] bounds the depth of the recursive calls. *)
Fixpoint list_dirs_from (fuel : nat) (self : SyncFiles)
    (target_folder_content : loc) (path : string) : M loc :=
  match fuel with
  | O => raise RecursionError
  | S fuel' =>
      let* entries := os_scandir path in
      for_each entries (λ entry,
        if is_dir (entry_node entry) then
          list_append target_folder_content
            (relative_name (entry_path entry)) ;;;
          let* _ := list_dirs_from fuel' self target_folder_content
                      (entry_path entry) in
          ret tt
        else ret tt) ;;;
      ret target_folder_content
  end.

(** A directory nested [k] levels down has [k] entries above it, so one
    more round than the file system has entries always suffices. *)
Definition list_dirs (self : SyncFiles) (target_folder_content : loc)
    (path : string) : M loc :=
  λ w, list_dirs_from (S (size (fs w))) self target_folder_content path w.

(** [list_files] *)
Fixpoint list_files_from (fuel : nat) (self : SyncFiles)
    (file_list : loc) (path : string) : M loc :=
  match fuel with
  | O => raise RecursionError
  | S fuel' =>
      let* entries := os_scandir path in
      for_each entries (λ entry,
        if is_file (entry_node entry) then
          list_append file_list (relative_name (entry_path entry))
        else if is_dir (entry_node entry) then
          let* _ := list_files_from fuel' self file_list (entry_path entry) in
          ret tt
        else ret tt) ;;;
      ret file_list
  end.

Definition list_files (self : SyncFiles) (file_list : loc) (path : string)
    : M loc :=
  λ w, list_files_from (S (size (fs w))) self file_list path w.

(** Body of the [# create dirs] loop of [sync_folders]. *)
Definition create_dir_step (self : SyncFiles) (source_dirs : loc) (i : nat)
    : M unit :=
  let* d := list_get source_dirs i in
  let* in_replica := os_path_exists (os_path_join (replica_path self) d) in
  let* in_source := os_path_exists (os_path_join (source_path self) d) in
  if negb in_replica && in_source then
    os_mkdir (os_path_join (replica_path self) d) ;;;
    add_log self "CREATED" (os_path_join (replica_path self) d) (log_path self)
  else ret tt.

(** Body of the [# delete dirs and contents] loop. *)
Definition delete_dir_step (self : SyncFiles) (replica_dirs : loc) (i : nat)
    : M unit :=
  let* d := list_get replica_dirs i in
  let* in_replica := os_path_exists (os_path_join (replica_path self) d) in
  let* in_source := os_path_exists (os_path_join (source_path self) d) in
  if in_replica && negb in_source then
    shutil_rmtree (os_path_join (replica_path self) d) ;;;
    add_log self "REMOVED" (os_path_join (replica_path self) d) (log_path self)
  else ret tt.

Definition sync_folders (self : SyncFiles) : M unit :=
  let* source_dirs :=
    list_dirs self (source_folders self) (source_path self) in
  let* replica_dirs :=
    list_dirs self (replica_folders self) (replica_path self) in
  let* n := list_len source_dirs in
  for_range n (create_dir_step self source_dirs) ;;;
  let* n := list_len replica_dirs in
  for_range n (delete_dir_step self replica_dirs).

(** [compare_files]: both files are hashed in chunks of [BUFF_SIZE]. *)
Definition compare_files (self : SyncFiles) (source_file replica_file : string)
    : M bool :=
  let* src := hash_file source_file in
  let* rep := hash_file replica_file in
  ret (bool_decide (hexdigest src = hexdigest rep)).

(** Body of the [# copy] loop of [sync_files]. *)
Definition copy_file_step (self : SyncFiles) (source_files : loc) (i : nat)
    : M unit :=
  let* f := list_get source_files i in
  let rep_file := os_path_join (replica_path self) f in
  let src_file := os_path_join (source_path self) f in
  let* rep_exists := os_path_exists rep_file in
  let* src_exists := os_path_exists src_file in
  if negb rep_exists && src_exists then
    shutil_copy2 src_file rep_file ;;;
    add_log self "CREATED" rep_file (log_path self)
  else if rep_exists && src_exists then
    let* same := compare_files self rep_file src_file in
    if negb same then
      os_remove rep_file ;;;
      shutil_copy2 src_file rep_file ;;;
      add_log self "MODIFIED" rep_file (log_path self)
    else ret tt
  else ret tt.

(** Body of the [# delete] loop of [sync_files]. *)
Definition delete_file_step (self : SyncFiles) (replica_files : loc) (i : nat)
    : M unit :=
  let* f := list_get replica_files i in
  let* in_replica := os_path_exists (os_path_join (replica_path self) f) in
  let* in_source := os_path_exists (os_path_join (source_path self) f) in
  if in_replica && negb in_source then
    os_remove (os_path_join (replica_path self) f) ;;;
    add_log self "REMOVED" (os_path_join (replica_path self) f) (log_path self)
  else ret tt.

Definition sync_files (self : SyncFiles) : M unit :=
  let* source_files :=
    list_files self (source_files self) (source_path self) in
  let* replica_files :=
    list_files self (replica_files self) (replica_path self) in
  let* n := list_len source_files in
  for_range n (copy_file_step self source_files) ;;;
  let* n := list_len replica_files in
  for_range n (delete_file_step self replica_files).

(** [full_sync]; the result is [self] with its four attributes rebound to
    new empty lists. *)
Definition full_sync (self : SyncFiles) : M SyncFiles :=
  sync_folders self ;;;
  sync_files self ;;;
  let* source_folders' := list_new [] in
  let* source_files' := list_new [] in
  let* replica_folders' := list_new [] in
  let* replica_files' := list_new [] in
  ret (MkSyncFiles (source_path self) (replica_path self) (log_path self)
         (sync_interval self)
         source_folders' replica_folders' source_files' replica_files').

(** *** The module-level code *)

(** [rounds] iterations of the [while True] loop, the [k]-th being the
    first; [Return] means the loop is still running after them. *)
Fixpoint main_loop (rounds : nat) (k : nat) (dflt : defaults)
    (argv : list string) : M unit :=
  match rounds with
  | O => ret tt
  | S rounds' =>
      let* self := new_SyncFiles dflt (argv !!! 1%nat) (argv !!! 2%nat)
                     (argv !!! 3%nat) (argv !!! 4%nat) in
      let* _ := full_sync self in
      match int_of_str (argv !!! 4%nat) with
      | None => raise ValueError
      | Some secs => time_sleep k secs ;;; main_loop rounds' (S k) dflt argv
      end
  end.

Definition check_path (i : string) : M unit :=
  let dir := os_path_abspath i in
  let* found := os_path_exists dir in
  if found then ret tt else raise FileNotFoundError.

Definition main (rounds : nat) (dflt : defaults) (argv : list string)
    : M unit :=
  if decide (length argv = 5%nat) then
    for_each (take 3 (drop 1 argv)) check_path ;;;
    (if str_isnumeric (argv !!! 4%nat) then ret tt else raise ValueError) ;;;
    main_loop rounds 0 dflt argv
  else raise TypeError.

(** *** Vocabulary of the properties *)

Definition valid_names (q : list string) : Prop :=
  Forall (λ n, valid_name n = true) q.

(** The path string [os.scandir] builds for the entry reached from [p]
    through the names [q]. *)
Definition path_of (p : string) (q : list string) : string :=
  foldl append_name p q.

(** The relative path the program should produce for the entry at [q]
    below a root, on a platform whose separator is the backslash. *)
Definition rel_path (q : list string) : string := join backslash q.

(** Root arguments for which the two dropped pieces of [relative_name] are
    exactly the pieces of the root: a name is appended after a separator
    and the root has two backslash-separated pieces, as in [.\source]. *)
Definition good_root (r : string) : Prop :=
  open_ended r = false ∧ length (split backslash r) = 2%nat.

(** The directories below [d], as component paths relative to [d], in the
    order in which [list_dirs] meets them. *)
Fixpoint walk_dirs (fuel : nat) (m : filesystem) (d : list string)
    : list (list string) :=
  match fuel with
  | O => []
  | S fuel' =>
      e ← scandir_order (children m d);
      if is_dir e.2
      then [e.1] :: ((e.1 ::.) <$> walk_dirs fuel' m (d ++ [e.1]))
      else []
  end.

(** The files below [d], in the order in which [list_files] meets them. *)
Fixpoint walk_files (fuel : nat) (m : filesystem) (d : list string)
    : list (list string) :=
  match fuel with
  | O => []
  | S fuel' =>
      e ← scandir_order (children m d);
      if is_file e.2 then [[e.1]]
      else (e.1 ::.) <$> walk_files fuel' m (d ++ [e.1])
  end.

(** No entry lies [fuel] or more levels below [d]. *)
Definition shallow (m : filesystem) (d : list string) (fuel : nat) : Prop :=
  ∀ q, is_Some (m !! (d ++ q)) → (length q < fuel)%nat.

(** The four list attributes of an instance. *)
Definition lists_of (self : SyncFiles) : list loc :=
  [source_folders self; replica_folders self;
   source_files self; replica_files self].

(** The lists of [self] are four different objects and all empty. *)
Definition lists_ready (self : SyncFiles) (w : world) : Prop :=
  NoDup (lists_of self) ∧ ∀ l, l ∈ lists_of self → heap w !! l = Some [].

Definition defaults_of (dflt : defaults) : list loc :=
  [default_source_folders dflt; default_replica_folders dflt;
   default_source_files dflt; default_replica_files dflt].

(** The world after [names] have been appended to the list at [l]. *)
Definition appended (l : loc) (names : list string) (w : world) : world :=
  set_heap (alter (λ xs, xs ++ names) l (heap w)) w.

(** The names the program appends for the entries at [qs] below [p]. *)
Definition names_of (p : string) (qs : list (list string)) : list string :=
  (λ q, relative_name (path_of p q)) <$> qs.

(** The directories, and the files, below [d], as [list_dirs] and
    [list_files] meet them when they start with enough fuel. *)
Definition dirs_below (m : filesystem) (d : list string) : list (list string) :=
  walk_dirs (S (size m)) m d.
Definition files_below (m : filesystem) (d : list string) : list (list string) :=
  walk_files (S (size m)) m d.

(** [x] occurs before [y] in [l]. *)
Definition before {A} (x y : A) (l : list A) : Prop :=
  ∃ l1 l2 l3, l = l1 ++ x :: l2 ++ y :: l3.

(** Two component paths neither of which lies inside the other. *)
Definition separate (a b : list string) : Prop :=
  ¬ a `prefix_of` b ∧ ¬ b `prefix_of` a.

(** The world after one logged change: the calls [cs] were made, the file
    system became [m'] and the entry [e] was logged. *)
Definition changed (cs : list fs_call) (e : log_entry) (m' : filesystem)
    (w : world) : world :=
  World m' (heap w) (log w ++ [e]) (calls w ++ cs).

(** [m] is [m0] plus directories below [rep] that mirror directories
    found below [src]. *)
Definition grown (src rep : list string) (m0 m : filesystem) : Prop :=
  (∀ k nd, m0 !! k = Some nd → m !! k = Some nd)
  ∧ (∀ k nd, m !! k = Some nd →
       m0 !! k = Some nd
       ∨ (nd = Dir ∧ ∃ q, q ≠ [] ∧ k = rep ++ q ∧ m0 !! (src ++ q) = Some Dir)).

Definition has_action (a : string) (e : log_entry) : Prop := le_action e = a.


(** A directory found only in the replica whose parent directory has a
    counterpart in the source: the topmost directory of a subtree that the
    source does not have. *)
Definition replica_only_top (src rep : list string) (m0 : filesystem)
    (q : list string) : Prop :=
  q ≠ [] ∧ m0 !! (rep ++ q) = Some Dir ∧ m0 !! (src ++ q) = None
  ∧ is_Some (m0 !! (src ++ parent q)).


(** A log entry for the copy of the source file at [q]. *)
Definition copy_entry (src : list string) (f : list string → string)
    (m : filesystem) (e : log_entry) : Prop :=
  ∃ q ds ss, q ≠ [] ∧ m !! (src ++ q) = Some (File ds ss)
             ∧ le_path e = f q
             ∧ (le_action e = "CREATED" ∨ le_action e = "MODIFIED").


Definition is_file_at (m : filesystem) (k : list string) : Prop :=
  ∃ d s, m !! k = Some (File d s).


(** What [sync_folders] makes of [m0]. *)
Definition folders_synced (src rep : list string) (m0 m : filesystem) : Prop :=
  wf_fs m
  ∧ (∀ q, m !! (src ++ q) = m0 !! (src ++ q))
  ∧ m !! rep = Some Dir
  ∧ (∀ q, q ≠ [] → m0 !! (src ++ q) = Some Dir → is_Some (m !! (rep ++ q)))
  ∧ (∀ q, q ≠ [] → m !! (rep ++ q) = Some Dir → is_Some (m0 !! (src ++ q)))
  ∧ (∀ q nd, m !! (rep ++ q) = Some nd →
       m0 !! (rep ++ q) = Some nd ∨ (nd = Dir ∧ m0 !! (rep ++ q) = None))
  ∧ (∀ q, q ≠ [] → m0 !! (rep ++ q) = Some Dir → m0 !! (src ++ q) = None →
       m !! (rep ++ q) = None).



(** What [sync_files] makes of [m]: a key keeps its node, or holds a copy
    of the source file it mirrors, or held a file that the source does not
    have and is gone. *)
Definition files_synced (src rep : list string) (m m' : filesystem) : Prop :=
  wf_fs m'
  ∧ (∀ k, m' !! k = m !! k
          ∨ (∃ x ds ss, x ≠ [] ∧ k = rep ++ x
                        ∧ m !! (src ++ x) = Some (File ds ss)
                        ∧ m' !! k = Some (File ds ss))
          ∨ (m' !! k = None
             ∧ ∃ x, x ≠ [] ∧ k = rep ++ x ∧ is_file_at m (rep ++ x)
                    ∧ m !! (src ++ x) = None))
  ∧ (∀ x ds ss, x ≠ [] → m !! (src ++ x) = Some (File ds ss) →
       ∃ dr sr, m' !! (rep ++ x) = Some (File dr sr) ∧ sha256 dr = sha256 ds)
  ∧ (∀ x, x ≠ [] → is_file_at m (rep ++ x) → m !! (src ++ x) = None →
       m' !! (rep ++ x) = None).


(** The changes a cycle makes to the replica, each with the calls that
    carry it out and the log entry that reports it. *)
Inductive mutation :=
  | MakeDir (p : string)
  | RemoveTree (p : string)
  | CopyNew (src dst : string)
  | Replace (src dst : string)
  | RemoveFile (p : string).

Definition prims (c : mutation) : list fs_call :=
  match c with
  | MakeDir p => [Mkdir p]
  | RemoveTree p => [Rmtree p]
  | CopyNew src dst => [Copy2 src dst]
  | Replace src dst => [Remove dst; Copy2 src dst]
  | RemoveFile p => [Remove p]
  end.

Definition entry (c : mutation) : log_entry :=
  match c with
  | MakeDir p => LogEntry "CREATED" p
  | RemoveTree p => LogEntry "REMOVED" p
  | CopyNew _ dst => LogEntry "CREATED" dst
  | Replace _ dst => LogEntry "MODIFIED" dst
  | RemoveFile p => LogEntry "REMOVED" p
  end.

(** From [w] to [w'] some changes were made, and the log grew by exactly
    their entries, in the same order. *)
Definition logged (w w' : world) : Prop :=
  ∃ ms, calls w' = calls w ++ (ms ≫= prims) ∧ log w' = log w ++ (entry <$> ms).

(** A computation that, when it returns, has logged every change it made. *)
Definition logs {A} (m : M A) : Prop :=
  ∀ w a w', m w = Return a w' → logged w w'.

(** A computation that makes no call and writes no log entry. *)
Definition quiet {A} (m : M A) : Prop :=
  ∀ w a w', m w = Return a w' → calls w' = calls w ∧ log w' = log w.


(** [wf_fs] as a test. *)
Definition wf_check (m : filesystem) : bool :=
  holds_dir (m !! []) && forallb (λ kv, wf_key m kv.1) (map_to_list m).

(** [lists_ready] as a test. *)
Definition lists_check (self : SyncFiles) (w : world) : bool :=
  bool_decide (NoDup (lists_of self))
  && forallb (λ l, bool_decide (heap w !! l = Some [])) (lists_of self).



(** * Properties *)

(** ** Strings *)

Lemma string_app_cons x (a b : string) : String x a +:+ b = String x (a +:+ b).
Proof. done. Qed.

Lemma string_app_nil_l (b : string) : "" +:+ b = b.
Proof. done. Qed.

Lemma string_app_assoc (a b c : string) : (a +:+ b) +:+ c = a +:+ (b +:+ c).
Proof.
  induction a as [|x a IH]; [done |].
  by rewrite !string_app_cons, IH.
Qed.

Lemma split_on_nonnil f s : split_on f s ≠ [].
Proof.
  destruct s as [|c s]; simpl; [done |].
  destruct (f c); [done |]. by destruct (split_on f s).
Qed.

Lemma split_on_app_sep f a c b :
  f c = true → split_on f (a +:+ String c b) = split_on f a ++ split_on f b.
Proof.
  intros Hc. induction a as [|x a IH].
  - rewrite string_app_nil_l. simpl. by rewrite Hc.
  - rewrite string_app_cons. simpl. rewrite IH. destruct (f x); [done |].
    pose proof (split_on_nonnil f a) as Hne.
    by destruct (split_on f a).
Qed.

Lemma split_on_free f s :
  string_forallb (λ c, negb (f c)) s = true → split_on f s = [s].
Proof.
  induction s as [|c s IH]; simpl; [done |].
  intros [Hc Hs]%andb_prop. apply negb_true_iff in Hc.
  by rewrite Hc, (IH Hs).
Qed.

Lemma join_cons2 sep x y l :
  join sep (x :: y :: l) = x +:+ String sep (join sep (y :: l)).
Proof. done. Qed.

Lemma join_snoc sep l n :
  l ≠ [] → join sep (l ++ [n]) = join sep l +:+ String sep n.
Proof.
  induction l as [|x [|y l] IH]; intros Hne; [done | done |].
  change ((x :: y :: l) ++ [n]) with (x :: y :: (l ++ [n])).
  rewrite !join_cons2.
  change (y :: l ++ [n]) with ((y :: l) ++ [n]).
  rewrite IH by done. by rewrite string_app_assoc, string_app_cons.
Qed.

Lemma split_on_join f sep l :
  f sep = true → l ≠ [] →
  Forall (λ s, string_forallb (λ c, negb (f c)) s = true) l →
  split_on f (join sep l) = l.
Proof.
  intros Hsep. induction l as [|x [|y l] IH]; intros Hne Hall; [done | |].
  - apply split_on_free. by inversion Hall.
  - rewrite join_cons2, split_on_app_sep by done.
    inversion Hall as [|? ? Hx Hrest]; subst.
    rewrite (split_on_free f x Hx), IH by done. done.
Qed.

Lemma last_char_app a b : b ≠ "" → last_char (a +:+ b) = last_char b.
Proof.
  intros Hb. induction a as [|x a IH]; [done |].
  rewrite string_app_cons. simpl. rewrite IH.
  destruct (a +:+ b) eqn:E; [| done].
  destruct a, b; simplify_eq/=.
Qed.

Lemma last_char_forallb f s c :
  string_forallb f s = true → last_char s = Some c → f c = true.
Proof.
  induction s as [|x s IH]; simpl; [done |].
  intros [Hx Hs]%andb_prop. destruct s; [by intros [= <-] | by apply IH].
Qed.

Lemma last_char_None s : last_char s = None → s = "".
Proof.
  induction s as [|x s IH]; [done |]. simpl.
  destruct s; [done |]. intros H. by specialize (IH H).
Qed.

Lemma first_char_app a b : a ≠ "" → first_char (a +:+ b) = first_char a.
Proof. by destruct a. Qed.

(** ** Paths on a backslash platform *)

Section Platform.

Hypothesis windows : os_sep = backslash.
Hypothesis scandir_order_perm : ∀ l, scandir_order l ≡ₚ l.

Lemma is_sep_backslash : is_sep backslash = true.
Proof. unfold is_sep. rewrite windows. by rewrite Ascii.eqb_refl. Qed.

Lemma name_char_ok_not_sep c : name_char_ok c = true → is_sep c = false.
Proof.
  unfold name_char_ok, is_sep. rewrite windows.
  intros [[H1 H2]%andb_prop _]%andb_prop.
  apply negb_true_iff in H1, H2. by rewrite H1, H2.
Qed.

Lemma name_char_ok_not_backslash c :
  name_char_ok c = true → Ascii.eqb backslash c = false.
Proof.
  unfold name_char_ok. intros [[H1 _]%andb_prop _]%andb_prop.
  apply negb_true_iff in H1. by rewrite Ascii.eqb_sym.
Qed.

Lemma string_forallb_impl (f g : ascii → bool) s :
  (∀ c, f c = true → g c = true) →
  string_forallb f s = true → string_forallb g s = true.
Proof.
  intros Hfg. induction s as [|c s IH]; simpl; [done |].
  intros [Hc Hs]%andb_prop. by rewrite (Hfg c Hc), (IH Hs).
Qed.

Lemma valid_name_inv n :
  valid_name n = true →
  n ≠ "" ∧ n ≠ "." ∧ n ≠ ".." ∧ string_forallb name_char_ok n = true.
Proof.
  unfold valid_name.
  intros [[[H1 H2]%andb_prop H3]%andb_prop H4]%andb_prop.
  apply bool_decide_eq_true in H1, H2, H3. done.
Qed.

Lemma valid_name_split_sep n :
  valid_name n = true → split_on is_sep n = [n].
Proof.
  intros (_ & _ & _ & H)%valid_name_inv. apply split_on_free.
  eapply string_forallb_impl; [| exact H].
  intros c Hc. by rewrite (name_char_ok_not_sep c Hc).
Qed.

Lemma valid_name_split_backslash n :
  valid_name n = true → split backslash n = [n].
Proof.
  intros (_ & _ & _ & H)%valid_name_inv. apply split_on_free.
  eapply string_forallb_impl; [| exact H].
  intros c Hc. by rewrite (name_char_ok_not_backslash c Hc).
Qed.

Lemma valid_name_closed p n :
  valid_name n = true → open_ended (p +:+ n) = false.
Proof.
  intros (Hne & _ & _ & H)%valid_name_inv. unfold open_ended.
  rewrite last_char_app by done.
  destruct (last_char n) as [c|] eqn:E; [| by apply last_char_None in E].
  pose proof (last_char_forallb _ _ _ H E) as Hc.
  rewrite (name_char_ok_not_sep c Hc). unfold name_char_ok in Hc.
  apply andb_prop in Hc as [_ Hc]. apply negb_true_iff in Hc.
  by rewrite Hc, andb_false_r.
Qed.

Lemma append_name_closed p n :
  open_ended p = false → append_name p n = p +:+ String os_sep n.
Proof. unfold append_name. by intros ->. Qed.

Lemma components_append p n :
  valid_name n = true →
  components (p +:+ String os_sep n) = components p ++ [n].
Proof.
  intros Hn. unfold components.
  assert (is_sep os_sep = true) as Hsep
    by (rewrite windows; apply is_sep_backslash).
  rewrite split_on_app_sep, filter_app, (valid_name_split_sep n) by done.
  f_equal. apply valid_name_inv in Hn as (? & ? & _).
  by rewrite filter_cons_True.
Qed.

Lemma path_of_snoc p q n : path_of p (q ++ [n]) = append_name (path_of p q) n.
Proof. unfold path_of. by rewrite foldl_snoc. Qed.

Lemma path_of_spec p q :
  open_ended p = false → valid_names q →
  open_ended (path_of p q) = false
  ∧ components (path_of p q) = components p ++ q
  ∧ split backslash (path_of p q) = split backslash p ++ q.
Proof.
  intros Hp. induction q as [|n q IH] using rev_ind; intros Hq.
  - by rewrite !app_nil_r.
  - unfold valid_names in Hq.
    apply Forall_app in Hq as [Hq Hn]. rewrite Forall_singleton in Hn.
    destruct (IH Hq) as (Ho & Hc & Hs).
    rewrite path_of_snoc, append_name_closed by done.
    split_and!.
    + change (String os_sep n) with (String os_sep "" +:+ n).
      rewrite <- string_app_assoc. by apply valid_name_closed.
    + rewrite components_append, Hc by done. by rewrite app_assoc.
    + unfold split in *.
      rewrite windows, split_on_app_sep by apply Ascii.eqb_refl.
      rewrite Hs. fold (split backslash n).
      rewrite valid_name_split_backslash by done. by rewrite app_assoc.
Qed.

(** For a root of the expected shape the program's expression yields the
    path relative to that root. *)
Lemma relative_name_path_of r q :
  good_root r → valid_names q → relative_name (path_of r q) = rel_path q.
Proof.
  intros [Ho Hlen] Hq. unfold relative_name.
  destruct (path_of_spec r q Ho Hq) as (_ & _ & ->).
  rewrite drop_app_length'; done.
Qed.

(** Whatever the root, the program drops two backslash-separated pieces of
    the entry's path string. *)
Lemma relative_name_any_root r q :
  open_ended r = false → valid_names q →
  relative_name (path_of r q)
  = join backslash (drop 2 (split backslash r ++ q)).
Proof.
  intros Ho Hq. unfold relative_name.
  by destruct (path_of_spec r q Ho Hq) as (_ & _ & ->).
Qed.

Lemma valid_names_sep_free q :
  valid_names q →
  Forall (λ s, string_forallb (λ c, negb (is_sep c)) s = true) q.
Proof.
  intros Hq. eapply Forall_impl; [exact Hq |].
  intros n (_ & _ & _ & H)%valid_name_inv.
  eapply string_forallb_impl; [| exact H].
  intros c Hc. by rewrite (name_char_ok_not_sep c Hc).
Qed.

Lemma components_rel_path q :
  valid_names q → q ≠ [] → components (rel_path q) = q.
Proof.
  intros Hq Hne. unfold components, rel_path.
  rewrite (split_on_join is_sep backslash) by
    (done || apply is_sep_backslash || by apply valid_names_sep_free).
  induction Hq as [|n q Hn Hq IH]; [done |].
  apply valid_name_inv in Hn as (? & ? & _).
  rewrite filter_cons_True by done. f_equal.
  destruct q; [done | by apply IH].
Qed.

Lemma first_char_rel_path q :
  valid_names q → q ≠ [] →
  ∃ c, first_char (rel_path q) = Some c ∧ is_sep c = false.
Proof.
  intros Hq Hne. destruct Hq as [|n q Hn Hq]; [done |].
  apply valid_name_inv in Hn as (Hn & _ & _ & Hok).
  destruct n as [|c n]; [done |]. exists c. split.
  - unfold rel_path. destruct q; [done |]. by rewrite join_cons2.
  - simpl in Hok. apply andb_prop in Hok as [Hc _].
    by apply name_char_ok_not_sep.
Qed.

(** Joining a root with a relative path addresses the entry at the root's
    components followed by those of the relative path. *)
Lemma os_path_join_rel r q :
  open_ended r = false → valid_names q → q ≠ [] →
  os_path_join r (rel_path q) = r +:+ String os_sep (rel_path q)
  ∧ components (os_path_join r (rel_path q)) = components r ++ q.
Proof.
  intros Ho Hq Hne.
  destruct (first_char_rel_path q Hq Hne) as (c & Hc & Hsep).
  assert (os_path_join r (rel_path q) = r +:+ String os_sep (rel_path q)) as ->.
  { unfold os_path_join. rewrite Hc, Hsep. by apply append_name_closed. }
  split; [done |]. unfold components at 1.
  assert (is_sep os_sep = true) as Hs
    by (rewrite windows; apply is_sep_backslash).
  rewrite split_on_app_sep, filter_app by done.
  f_equal. by apply components_rel_path.
Qed.

Lemma lookup_path_join m r q :
  open_ended r = false → valid_names q → q ≠ [] →
  lookup_path m (os_path_join r (rel_path q)) = m !! (components r ++ q).
Proof.
  intros Ho Hq Hne.
  destruct (os_path_join_rel r q Ho Hq Hne) as [E Hc].
  unfold lookup_path. rewrite <- Hc. rewrite E at 1.
  destruct r; [done |]. by rewrite string_app_cons.
Qed.

Lemma rel_path_inj q1 q2 :
  valid_names q1 → valid_names q2 → q1 ≠ [] → q2 ≠ [] →
  rel_path q1 = rel_path q2 → q1 = q2.
Proof.
  intros H1 H2 N1 N2 E.
  by rewrite <- (components_rel_path q1), <- (components_rel_path q2), E.
Qed.

(** ** Component paths and well-formed file systems *)

Lemma strip_spec d q r : strip d q = Some r ↔ q = d ++ r.
Proof.
  revert q. induction d as [|a d IH]; intros q; simpl.
  - split; congruence.
  - destruct q as [|b q]; [done |].
    destruct (decide (a = b)) as [->|Hne].
    + rewrite IH. split; congruence.
    + split; [done | congruence].
Qed.

Lemma parent_snoc d n : parent (d ++ [n]) = d.
Proof.
  unfold parent. rewrite length_app, Nat.add_comm. simpl.
  by rewrite take_app_length.
Qed.

Lemma elem_of_children m d n nd :
  (n, nd) ∈ children m d ↔ m !! (d ++ [n]) = Some nd.
Proof.
  unfold children. rewrite list_elem_of_omap. split.
  - intros ([k x] & Hin & Hf). simpl in Hf.
    destruct (strip d k) as [[|n' [|]]|] eqn:E; simplify_eq.
    apply strip_spec in E as ->. by apply elem_of_map_to_list.
  - intros H. exists (d ++ [n], nd). split; [by apply elem_of_map_to_list |].
    simpl. by rewrite (proj2 (strip_spec d (d ++ [n]) [n])).
Qed.

Lemma NoDup_children m d : NoDup (children m d).*1.
Proof.
  unfold children. pose proof (NoDup_fst_map_to_list m) as Hnd.
  induction (map_to_list m) as [|[k x] l IH]; simpl; [constructor |].
  apply NoDup_cons in Hnd as [Hk Hnd]. specialize (IH Hnd).
  destruct (strip d k) as [[|n [|]]|] eqn:E; simpl; try done.
  apply strip_spec in E as ->. constructor; [| done].
  intros ([n' x'] & -> & Hin)%list_elem_of_fmap. simpl in *.
  apply list_elem_of_omap in Hin as ([k' y] & Hin & Hf). simpl in Hf.
  destruct (strip d k') as [[|n'' [|]]|] eqn:E'; simplify_eq.
  apply strip_spec in E' as ->. apply Hk.
  apply list_elem_of_fmap. by exists (d ++ [n'], x').
Qed.

Lemma wf_fs_root m : wf_fs m → m !! [] = Some Dir.
Proof. by intros [? _]. Qed.

Lemma wf_fs_snoc m d n nd :
  wf_fs m → m !! (d ++ [n]) = Some nd →
  m !! d = Some Dir ∧ valid_names (d ++ [n]).
Proof.
  intros [_ Hall] Hk. specialize (Hall _ _ Hk). unfold wf_key in Hall.
  destruct (d ++ [n]) as [|a k] eqn:E; [by destruct d |].
  rewrite <- E in *. apply andb_prop in Hall as [Hv Hp].
  rewrite parent_snoc in Hp. split.
  - destruct (m !! d) as [[]|]; done.
  - apply Forall_forall. intros x Hx.
    rewrite forallb_forall in Hv. apply Hv. by apply list_elem_of_In.
Qed.

Lemma wf_fs_names m q nd : wf_fs m → m !! q = Some nd → valid_names q.
Proof.
  intros Hwf Hq. destruct q as [|a q] using rev_ind; [constructor |].
  by destruct (wf_fs_snoc m q a nd Hwf Hq).
Qed.

Lemma wf_fs_ancestor m d q nd :
  wf_fs m → m !! (d ++ q) = Some nd → q ≠ [] → m !! d = Some Dir.
Proof.
  intros Hwf. revert nd. induction q as [|n q IH] using rev_ind; [done |].
  intros nd Hk _. rewrite app_assoc in Hk.
  destruct (wf_fs_snoc m _ n nd Hwf Hk) as [Hd _].
  destruct q as [|a q]; [by rewrite app_nil_r in Hd |].
  by apply (IH Dir).
Qed.

Lemma wf_fs_is_Some_ancestor m d q :
  wf_fs m → is_Some (m !! (d ++ q)) → is_Some (m !! d).
Proof.
  intros Hwf [nd Hk]. destruct q as [|a q].
  - rewrite app_nil_r in Hk. by exists nd.
  - exists Dir. by eapply wf_fs_ancestor.
Qed.

Lemma wf_fs_file_leaf m d q data st :
  wf_fs m → m !! d = Some (File data st) → q ≠ [] → m !! (d ++ q) = None.
Proof.
  intros Hwf Hd Hq. destruct (m !! (d ++ q)) as [nd|] eqn:E; [| done].
  pose proof (wf_fs_ancestor m d q nd Hwf E Hq). congruence.
Qed.

(** Every prefix of a key is a key, so a key is shorter than the map is
    large. *)
Lemma wf_fs_depth m k : wf_fs m → is_Some (m !! k) → (length k < size m)%nat.
Proof.
  intros Hwf Hk.
  set (l := (λ i, take i k) <$> seq 0 (S (length k))).
  assert (NoDup l) as Hnd.
  { apply NoDup_fmap_2_strong; [| apply NoDup_seq].
    intros i j Hi Hj E. apply elem_of_seq in Hi, Hj.
    apply (f_equal length) in E. rewrite !length_take in E. lia. }
  assert (l ⊆+ (map_to_list m).*1) as Hsub.
  { apply NoDup_submseteq; [done |]. intros x Hx.
    apply list_elem_of_fmap in Hx as (i & -> & Hi).
    assert (is_Some (m !! take i k)) as [nd Hnd'].
    { apply (wf_fs_is_Some_ancestor m _ (drop i k) Hwf).
      by rewrite take_drop. }
    apply list_elem_of_fmap. exists (take i k, nd). split; [done |].
    by apply elem_of_map_to_list. }
  apply submseteq_length in Hsub.
  unfold l in Hsub.
  rewrite !length_fmap, length_seq, length_map_to_list in Hsub. lia.
Qed.

Lemma wf_fs_shallow m d : wf_fs m → shallow m d (S (size m)).
Proof.
  intros Hwf q Hq. apply (wf_fs_depth m _ Hwf) in Hq.
  rewrite length_app in Hq. lia.
Qed.

Lemma shallow_child m d n fuel :
  shallow m d (S fuel) → shallow m (d ++ [n]) fuel.
Proof.
  intros Hs q Hq. rewrite <- app_assoc in Hq. apply Hs in Hq.
  simpl in Hq. lia.
Qed.

(** ** The monad and the loops *)

Lemma bind_Return {A B} (m : M A) (k : A → M B) w a w' :
  m w = Return a w' → bind m k w = k a w'.
Proof. unfold bind. by intros ->. Qed.

Lemma bind_Raise {A B} (m : M A) (k : A → M B) w e w' :
  m w = Raise e w' → bind m k w = Raise e w'.
Proof. unfold bind. by intros ->. Qed.

Lemma for_each_app {A} (xs ys : list A) body w :
  for_each (xs ++ ys) body w
  = bind (for_each xs body) (λ _, for_each ys body) w.
Proof.
  revert w. induction xs as [|x xs IH]; intros w; simpl; [reflexivity |].
  unfold bind. destruct (body x w) as [[] w'|e w']; [| reflexivity].
  rewrite IH. reflexivity.
Qed.

(** Invariant rule for a loop: [I done] holds after the items [done] have
    been processed, [E] describes the worlds in which an item may raise. *)
Lemma for_each_inv {A} (I : list A → world → Prop) (E : exn → world → Prop)
    (body : A → M unit) xs w :
  I [] w →
  (∀ done x rest w,
      xs = done ++ x :: rest → I done w →
      match body x w with
      | Return _ w' => I (done ++ [x]) w'
      | Raise e w' => E e w'
      end) →
  match for_each xs body w with
  | Return _ w' => I xs w'
  | Raise e w' => E e w'
  end.
Proof.
  intros H0 Hstep.
  assert (∀ rest done w, xs = done ++ rest → I done w →
            match for_each rest body w with
            | Return _ w' => I xs w'
            | Raise e w' => E e w'
            end) as Hgen.
  { induction rest as [|x rest IH]; intros done w0 Hxs Hd; simpl.
    - by rewrite Hxs, app_nil_r.
    - unfold bind. pose proof (Hstep done x rest w0 Hxs Hd) as Hx.
      destruct (body x w0) as [[] w'|e w']; [| done].
      apply (IH (done ++ [x])); [| done]. by rewrite <- app_assoc. }
  by apply (Hgen xs []).
Qed.

(** ** Appending to a list object *)

Lemma appended_nil l w : appended l [] w = w.
Proof.
  destruct w as [m h lg cs]. unfold appended, set_heap. simpl. f_equal.
  apply list_alter_id. intros xs. apply app_nil_r.
Qed.

Lemma appended_app l a b w :
  appended l b (appended l a w) = appended l (a ++ b) w.
Proof.
  unfold appended, set_heap. simpl. f_equal.
  rewrite list_alter_alter_eq. apply list_alter_ext; [| done].
  intros xs _. simpl. by rewrite app_assoc.
Qed.

Lemma fs_appended l names w : fs (appended l names w) = fs w.
Proof. done. Qed.

Lemma log_appended l names w : log (appended l names w) = log w.
Proof. done. Qed.

Lemma calls_appended l names w : calls (appended l names w) = calls w.
Proof. done. Qed.

Lemma heap_appended_eq l names w xs :
  heap w !! l = Some xs → heap (appended l names w) !! l = Some (xs ++ names).
Proof. intros H. simpl. by rewrite list_lookup_alter_eq, H. Qed.

Lemma heap_appended_ne l l' names w :
  l ≠ l' → heap (appended l names w) !! l' = heap w !! l'.
Proof. intros H. simpl. by rewrite list_lookup_alter_ne. Qed.

Lemma list_append_appended l x w :
  list_append l x w = Return tt (appended l [x] w).
Proof. done. Qed.

Lemma names_of_app p a b : names_of p (a ++ b) = names_of p a ++ names_of p b.
Proof. unfold names_of. by rewrite fmap_app. Qed.

Lemma names_of_cons p q qs :
  names_of p (q :: qs) = relative_name (path_of p q) :: names_of p qs.
Proof. done. Qed.

Lemma names_of_cons_map p n qs :
  names_of p ((n ::.) <$> qs) = names_of (append_name p n) qs.
Proof. unfold names_of. rewrite <- list_fmap_compose. done. Qed.

(** ** The listings *)

Lemma lookup_path_components m p :
  p ≠ "" → lookup_path m p = m !! components p.
Proof. by destruct p. Qed.

Lemma open_ended_nonempty p : open_ended p = false → p ≠ "".
Proof. by intros H ->. Qed.

Lemma os_scandir_dir p w :
  open_ended p = false → fs w !! components p = Some Dir →
  os_scandir p w
  = Return ((λ e, MkEntry e.1 (append_name p e.1) e.2)
              <$> scandir_order (children (fs w) (components p))) w.
Proof.
  intros Ho Hd. unfold os_scandir.
  by rewrite lookup_path_components, Hd by by apply open_ended_nonempty.
Qed.

Lemma elem_of_scandir m d n nd :
  (n, nd) ∈ scandir_order (children m d) ↔ m !! (d ++ [n]) = Some nd.
Proof. by rewrite scandir_order_perm, elem_of_children. Qed.

Lemma child_path p d n nd m :
  wf_fs m → open_ended p = false → components p = d →
  m !! (d ++ [n]) = Some nd →
  open_ended (append_name p n) = false
  ∧ components (append_name p n) = d ++ [n]
  ∧ valid_name n = true.
Proof.
  intros Hwf Ho Hc Hn.
  destruct (wf_fs_snoc m d n nd Hwf Hn) as [_ Hv].
  unfold valid_names in Hv. apply Forall_app in Hv as [_ Hv].
  rewrite Forall_singleton in Hv.
  rewrite append_name_closed by done. split_and!; [| | done].
  - change (String os_sep n) with (String os_sep "" +:+ n).
    rewrite <- string_app_assoc. by apply valid_name_closed.
  - by rewrite components_append, Hc.
Qed.

(** [list_dirs] appends, for every directory below the scanned one and in
    the order of the walk, what [relative_name] makes of its path. *)
Lemma list_dirs_from_spec fuel self l p w :
  wf_fs (fs w) → open_ended p = false →
  fs w !! components p = Some Dir →
  shallow (fs w) (components p) fuel →
  list_dirs_from fuel self l p w
  = Return l (appended l (names_of p (walk_dirs fuel (fs w) (components p))) w).
Proof.
  revert p w. induction fuel as [|fuel IH]; intros p w Hwf Ho Hd Hsh.
  { exfalso. specialize (Hsh []). rewrite app_nil_r, Hd in Hsh.
    specialize (Hsh (mk_is_Some _ _ eq_refl)). simpl in Hsh. lia. }
  set (m := fs w) in *. set (d := components p) in *.
  change (list_dirs_from (S fuel) self l p) with
    (bind (os_scandir p) (λ entries,
       bind (for_each entries (λ entry,
         if is_dir (entry_node entry) then
           bind (list_append l (relative_name (entry_path entry))) (λ _,
             bind (list_dirs_from fuel self l (entry_path entry))
               (λ _, ret tt))
         else ret tt)) (λ _, ret l))).
  rewrite (bind_Return _ _ _ _ _ (os_scandir_dir p w Ho Hd)).
  fold m d.
  assert (∀ es w',
    fs w' = m → (∀ e, e ∈ es → m !! (d ++ [e.1]) = Some e.2) →
    for_each ((λ e, MkEntry e.1 (append_name p e.1) e.2) <$> es)
      (λ entry,
         if is_dir (entry_node entry) then
           bind (list_append l (relative_name (entry_path entry))) (λ _,
             bind (list_dirs_from fuel self l (entry_path entry))
               (λ _, ret tt))
         else ret tt) w'
    = Return tt (appended l (names_of p
        (e ← es;
         if is_dir e.2
         then [e.1] :: ((e.1 ::.) <$> walk_dirs fuel m (d ++ [e.1]))
         else [])) w')) as Hloop.
  { induction es as [|[n nd] es IHes]; intros w' Hfs Hes.
    { simpl. by rewrite appended_nil. }
    assert (m !! (d ++ [n]) = Some nd) as Hn by (apply (Hes (n, nd)); left).
    assert (∀ e, e ∈ es → m !! (d ++ [e.1]) = Some e.2) as Hes'
      by (intros e He; apply Hes; by right).
    rewrite fmap_cons. cbn [for_each mbind list_bind fst snd entry_node].
    destruct nd as [|data st]; cbn [is_dir].
    - destruct (child_path p d n Dir m Hwf Ho eq_refl Hn) as (Ho' & Hc' & Hv).
      unfold bind at 1. unfold bind at 1.
      rewrite list_append_appended. cbn [entry_path].
      unfold bind at 1.
      pose proof (IH (append_name p n)
        (appended l [relative_name (append_name p n)] w')) as IH1.
      rewrite fs_appended, Hfs, Hc' in IH1.
      rewrite IH1 by (done || by apply shallow_child).
      cbn [ret]. rewrite IHes by done.
      rewrite !appended_app. do 2 f_equal.
      rewrite names_of_app, names_of_cons, names_of_cons_map. reflexivity.
    - unfold bind at 1. cbn [ret]. rewrite IHes by done. done. }
  rewrite (bind_Return _ _ _ _ _ (Hloop _ w eq_refl
    (λ e He, proj1 (elem_of_scandir m d e.1 e.2)
       ltac:(by destruct e)))).
  done.
Qed.

Lemma list_files_from_spec fuel self l p w :
  wf_fs (fs w) → open_ended p = false →
  fs w !! components p = Some Dir →
  shallow (fs w) (components p) fuel →
  list_files_from fuel self l p w
  = Return l (appended l (names_of p (walk_files fuel (fs w) (components p))) w).
Proof.
  revert p w. induction fuel as [|fuel IH]; intros p w Hwf Ho Hd Hsh.
  { exfalso. specialize (Hsh []). rewrite app_nil_r, Hd in Hsh.
    specialize (Hsh (mk_is_Some _ _ eq_refl)). simpl in Hsh. lia. }
  set (m := fs w) in *. set (d := components p) in *.
  change (list_files_from (S fuel) self l p) with
    (bind (os_scandir p) (λ entries,
       bind (for_each entries (λ entry,
         if is_file (entry_node entry) then
           list_append l (relative_name (entry_path entry))
         else if is_dir (entry_node entry) then
           bind (list_files_from fuel self l (entry_path entry))
             (λ _, ret tt)
         else ret tt)) (λ _, ret l))).
  rewrite (bind_Return _ _ _ _ _ (os_scandir_dir p w Ho Hd)).
  fold m d.
  assert (∀ es w',
    fs w' = m → (∀ e, e ∈ es → m !! (d ++ [e.1]) = Some e.2) →
    for_each ((λ e, MkEntry e.1 (append_name p e.1) e.2) <$> es)
      (λ entry,
         if is_file (entry_node entry) then
           list_append l (relative_name (entry_path entry))
         else if is_dir (entry_node entry) then
           bind (list_files_from fuel self l (entry_path entry))
             (λ _, ret tt)
         else ret tt) w'
    = Return tt (appended l (names_of p
        (e ← es;
         if is_file e.2 then [[e.1]]
         else (e.1 ::.) <$> walk_files fuel m (d ++ [e.1]))) w')) as Hloop.
  { induction es as [|[n nd] es IHes]; intros w' Hfs Hes.
    { simpl. by rewrite appended_nil. }
    assert (m !! (d ++ [n]) = Some nd) as Hn by (apply (Hes (n, nd)); left).
    assert (∀ e, e ∈ es → m !! (d ++ [e.1]) = Some e.2) as Hes'
      by (intros e He; apply Hes; by right).
    rewrite fmap_cons. cbn [for_each mbind list_bind fst snd entry_node].
    destruct nd as [|data st]; cbn [is_dir is_file].
    - destruct (child_path p d n Dir m Hwf Ho eq_refl Hn) as (Ho' & Hc' & Hv).
      unfold bind at 1. unfold bind at 1. cbn [entry_path].
      pose proof (IH (append_name p n) w') as IH1.
      rewrite Hfs, Hc' in IH1.
      rewrite IH1 by (done || by apply shallow_child).
      cbn [ret]. rewrite IHes by done.
      rewrite !appended_app. do 2 f_equal.
      by rewrite names_of_app, names_of_cons_map.
    - unfold bind at 1. rewrite list_append_appended. cbn [entry_path].
      rewrite IHes by done.
      rewrite !appended_app. reflexivity. }
  rewrite (bind_Return _ _ _ _ _ (Hloop _ w eq_refl
    (λ e He, proj1 (elem_of_scandir m d e.1 e.2)
       ltac:(by destruct e)))).
  done.
Qed.

Lemma list_dirs_spec self l p w :
  wf_fs (fs w) → open_ended p = false →
  fs w !! components p = Some Dir →
  list_dirs self l p w
  = Return l (appended l (names_of p (dirs_below (fs w) (components p))) w).
Proof.
  intros Hwf Ho Hd. unfold list_dirs, dirs_below.
  apply list_dirs_from_spec; try done. by apply wf_fs_shallow.
Qed.

Lemma list_files_spec self l p w :
  wf_fs (fs w) → open_ended p = false →
  fs w !! components p = Some Dir →
  list_files self l p w
  = Return l (appended l (names_of p (files_below (fs w) (components p))) w).
Proof.
  intros Hwf Ho Hd. unfold list_files, files_below.
  apply list_files_from_spec; try done. by apply wf_fs_shallow.
Qed.

(** A root that does not exist makes the listing raise. *)
Lemma list_dirs_missing self l p w :
  lookup_path (fs w) p = None →
  list_dirs self l p w = Raise FileNotFoundError w.
Proof.
  intros Hp. unfold list_dirs. cbn [list_dirs_from].
  apply bind_Raise. unfold os_scandir. by rewrite Hp.
Qed.

(** ** What the walks contain, and in which order *)

Lemma before_app_l {A} (x y : A) l k : before x y l → before x y (l ++ k).
Proof.
  intros (l1 & l2 & l3 & ->). exists l1, l2, (l3 ++ k).
  by rewrite <- !app_assoc, <- !app_comm_cons, <- app_assoc.
Qed.

Lemma before_app_r {A} (x y : A) l k : before x y l → before x y (k ++ l).
Proof.
  intros (l1 & l2 & l3 & ->). exists (k ++ l1), l2, l3.
  by rewrite <- !app_assoc.
Qed.

Lemma before_cons {A} (x y z : A) l : before x y l → before x y (z :: l).
Proof. apply (before_app_r x y l [z]). Qed.

Lemma before_head {A} (x y : A) l : y ∈ l → before x y (x :: l).
Proof.
  intros (l2 & l3 & ->)%list_elem_of_split. by exists [], l2, l3.
Qed.

Lemma before_fmap {A B} (f : A → B) x y l :
  before x y l → before (f x) (f y) (f <$> l).
Proof.
  intros (l1 & l2 & l3 & ->). exists (f <$> l1), (f <$> l2), (f <$> l3).
  by rewrite !fmap_app, !fmap_cons, !fmap_app, !fmap_cons.
Qed.

Lemma before_bind {A B} (f : A → list B) x y e l :
  e ∈ l → before x y (f e) → before x y (l ≫= f).
Proof.
  intros (l1 & l2 & ->)%list_elem_of_split Hb.
  rewrite bind_app, bind_cons. by apply before_app_r, before_app_l.
Qed.

(** In a list without duplicates, what comes before [y] is in the part
    already passed when [y] is reached. *)
Lemma before_done {A} (x y : A) l done rest :
  NoDup l → before x y l → l = done ++ y :: rest → x ∈ done.
Proof.
  intros Hnd (l1 & l2 & l3 & Hl) Hsplit.
  assert (done = l1 ++ x :: l2) as ->; [| set_solver].
  rewrite Hl in Hsplit, Hnd.
  rewrite (app_comm_cons l2), app_assoc in Hsplit, Hnd.
  apply NoDup_app in Hnd as (_ & Hnot & Hnd3).
  apply NoDup_cons in Hnd3 as [Hy3 _].
  revert Hsplit Hnot. generalize (l1 ++ x :: l2). intros k.
  revert done. induction k as [|a k IH]; intros [|b done] Hsplit Hnot;
    simplify_eq/=.
  - done.
  - exfalso. apply Hy3. set_solver.
  - exfalso. apply (Hnot y); set_solver.
  - f_equal. apply IH; [done |]. intros z Hz. apply Hnot. by right.
Qed.

Lemma NoDup_scandir m d : NoDup (scandir_order (children m d)).
Proof.
  rewrite scandir_order_perm. eapply NoDup_fmap_1, NoDup_children.
Qed.

Lemma elem_of_walk_dirs_1 fuel m d q :
  q ∈ walk_dirs fuel m d → q ≠ [] ∧ m !! (d ++ q) = Some Dir.
Proof.
  revert d q. induction fuel as [|fuel IH]; intros d q; simpl; [set_solver |].
  intros ([n nd] & Hq & He)%list_elem_of_bind. simpl in Hq.
  apply elem_of_scandir in He. destruct nd; simpl in Hq; [| set_solver].
  apply elem_of_cons in Hq as [-> | Hq]; [done |].
  apply list_elem_of_fmap in Hq as (q' & -> & Hq').
  apply IH in Hq' as [_ Hq']. split; [done |].
  by rewrite <- app_assoc in Hq'.
Qed.

Lemma elem_of_walk_dirs_2 fuel m d q :
  wf_fs m → q ≠ [] → m !! (d ++ q) = Some Dir → (length q ≤ fuel)%nat →
  q ∈ walk_dirs fuel m d.
Proof.
  intros Hwf. revert d q.
  induction fuel as [|fuel IH]; intros d [|n q] Hne Hq Hlen;
    simpl in *; try done; [lia |].
  assert (m !! (d ++ [n]) = Some Dir) as Hn.
  { destruct q as [|a q]; [done |].
    apply (wf_fs_ancestor m (d ++ [n]) (a :: q) Dir); [done | | done].
    by rewrite <- app_assoc. }
  apply list_elem_of_bind. exists (n, Dir). split; [| by apply elem_of_scandir].
  simpl. destruct q as [|a q]; [by left |]. right.
  apply list_elem_of_fmap. exists (a :: q). split; [done |].
  apply IH; [done | | lia]. by rewrite <- app_assoc.
Qed.

Lemma elem_of_dirs_below m d q :
  wf_fs m → q ∈ dirs_below m d ↔ q ≠ [] ∧ m !! (d ++ q) = Some Dir.
Proof.
  intros Hwf. split; [apply elem_of_walk_dirs_1 |].
  intros [Hne Hq]. apply elem_of_walk_dirs_2; try done.
  pose proof (wf_fs_depth m (d ++ q) Hwf (mk_is_Some _ _ Hq)) as H.
  rewrite length_app in H. lia.
Qed.

Lemma NoDup_walk_dirs fuel m d : NoDup (walk_dirs fuel m d).
Proof.
  revert d. induction fuel as [|fuel IH]; intros d; simpl; [constructor |].
  apply NoDup_bind; [| | apply NoDup_scandir].
  - intros [n1 x1] [n2 x2] q H1 H2 Hq1 Hq2.
    apply elem_of_scandir in H1, H2.
    assert (∀ n (x : node) l, q ∈ (if is_dir x then [n] :: ((n ::.) <$> l) else [])
              → ∃ q', q = n :: q') as Hhead.
    { intros n x l Hq. destruct x; simpl in Hq; [| set_solver].
      apply elem_of_cons in Hq as [-> | Hq]; [by eexists |].
      apply list_elem_of_fmap in Hq as (q' & -> & _). by eexists. }
    apply Hhead in Hq1 as [q1 ->]. apply Hhead in Hq2 as [q2 [= ->]].
    f_equal. congruence.
  - intros [n nd] _. simpl. destruct nd; [| constructor].
    constructor.
    + intros (q & Hq & Hin)%list_elem_of_fmap. simplify_eq.
      by apply elem_of_walk_dirs_1 in Hin as [? _].
    + apply NoDup_fmap_2; [| apply IH]. by intros ?? [=].
Qed.

(** A directory comes before every directory below it. *)
Lemma walk_dirs_before fuel m d q1 q2 :
  q1 ≠ [] → q2 ≠ [] → q1 ++ q2 ∈ walk_dirs fuel m d →
  before q1 (q1 ++ q2) (walk_dirs fuel m d).
Proof.
  revert d q1. induction fuel as [|fuel IH]; intros d [|n q1] H1 H2;
    simpl; try done; [set_solver |].
  intros ([n' nd] & Hq & He)%list_elem_of_bind. simpl in Hq.
  destruct nd; simpl in Hq; [| set_solver].
  apply elem_of_cons in Hq as [Hq | Hq].
  { destruct q1, q2; simplify_eq/=. }
  apply list_elem_of_fmap in Hq as (q' & [= <- <-] & Hq').
  eapply (before_bind _ _ _ (n, Dir)); [done |]. simpl.
  destruct q1 as [|a q1].
  - apply before_head. apply list_elem_of_fmap. by exists q2.
  - apply before_cons. apply (before_fmap (n ::.)). by apply IH.
Qed.

Lemma elem_of_walk_files_1 fuel m d q :
  q ∈ walk_files fuel m d →
  q ≠ [] ∧ ∃ data st, m !! (d ++ q) = Some (File data st).
Proof.
  revert d q. induction fuel as [|fuel IH]; intros d q; simpl; [set_solver |].
  intros ([n nd] & Hq & He)%list_elem_of_bind. simpl in Hq.
  apply elem_of_scandir in He. destruct nd as [|data st]; simpl in Hq.
  - apply list_elem_of_fmap in Hq as (q' & -> & Hq').
    apply IH in Hq' as [_ Hq']. split; [done |].
    by rewrite <- app_assoc in Hq'.
  - apply list_elem_of_singleton in Hq as ->. split; [done |]. by exists data, st.
Qed.

Lemma elem_of_walk_files_2 fuel m d q data st :
  wf_fs m → q ≠ [] → m !! (d ++ q) = Some (File data st) →
  (length q ≤ fuel)%nat → q ∈ walk_files fuel m d.
Proof.
  intros Hwf. revert d q.
  induction fuel as [|fuel IH]; intros d [|n q] Hne Hq Hlen;
    simpl in *; try done; [lia |].
  apply list_elem_of_bind. destruct q as [|a q].
  - exists (n, File data st). split; [| by apply elem_of_scandir].
    simpl. by left.
  - assert (m !! (d ++ [n]) = Some Dir) as Hn.
    { apply (wf_fs_ancestor m (d ++ [n]) (a :: q) (File data st));
        [done | | done]. by rewrite <- app_assoc. }
    exists (n, Dir). split; [| by apply elem_of_scandir]. simpl.
    apply list_elem_of_fmap. exists (a :: q). split; [done |].
    apply IH; [done | | lia]. by rewrite <- app_assoc.
Qed.

Lemma elem_of_files_below m d q :
  wf_fs m →
  q ∈ files_below m d
  ↔ q ≠ [] ∧ ∃ data st, m !! (d ++ q) = Some (File data st).
Proof.
  intros Hwf. split; [apply elem_of_walk_files_1 |].
  intros [Hne (data & st & Hq)]. eapply elem_of_walk_files_2; try done.
  pose proof (wf_fs_depth m (d ++ q) Hwf (mk_is_Some _ _ Hq)) as H.
  rewrite length_app in H. lia.
Qed.

Lemma NoDup_walk_files fuel m d : NoDup (walk_files fuel m d).
Proof.
  revert d. induction fuel as [|fuel IH]; intros d; simpl; [constructor |].
  apply NoDup_bind; [| | apply NoDup_scandir].
  - intros [n1 x1] [n2 x2] q H1 H2 Hq1 Hq2.
    apply elem_of_scandir in H1, H2.
    assert (n1 = n2) as ->.
    { destruct x1, x2; simpl in *;
        try apply list_elem_of_singleton in Hq1;
        try apply list_elem_of_singleton in Hq2;
        try apply list_elem_of_fmap in Hq1 as (? & ? & _);
        try apply list_elem_of_fmap in Hq2 as (? & ? & _); by simplify_eq. }
    f_equal. congruence.
  - intros [n nd] _. simpl. destruct nd; [| apply NoDup_singleton].
    apply NoDup_fmap_2; [| apply IH]. by intros ?? [=].
Qed.

(** ** Reading a file in chunks *)

Lemma read_loop_all fuel size h data :
  (0 < size)%nat → (length data < fuel)%nat →
  read_loop fuel size h data = h ++ data.
Proof.
  intros Hsize. revert h data.
  induction fuel as [|fuel IH]; intros h data Hlen; [lia |].
  simpl. destruct (take size data) as [|b chunk] eqn:E.
  - destruct data as [|b data]; [by rewrite app_nil_r |].
    destruct size; [lia | done].
  - rewrite <- E. rewrite IH.
    + unfold hash_update. by rewrite <- app_assoc, take_drop.
    + rewrite length_drop.
      destruct data as [|b' data]; [by destruct size |]. simpl in *. lia.
Qed.

Lemma hash_file_file p w data st :
  lookup_path (fs w) p = Some (File data st) →
  hash_file p w = Return data w.
Proof.
  intros Hp. unfold hash_file. rewrite Hp. f_equal.
  apply (read_loop_all _ _ hashlib_new); [unfold BUFF_SIZE; lia | lia].
Qed.

Lemma hash_file_dir p w :
  lookup_path (fs w) p = Some Dir →
  hash_file p w = Raise IsADirectoryError w.
Proof. intros Hp. unfold hash_file. by rewrite Hp. Qed.

Lemma compare_files_files self a b w da sa db sb :
  lookup_path (fs w) a = Some (File da sa) →
  lookup_path (fs w) b = Some (File db sb) →
  compare_files self a b w = Return (bool_decide (sha256 da = sha256 db)) w.
Proof.
  intros Ha Hb. unfold compare_files.
  rewrite (bind_Return _ _ _ _ _ (hash_file_file a w da sa Ha)).
  by rewrite (bind_Return _ _ _ _ _ (hash_file_file b w db sb Hb)).
Qed.

Lemma parent_app d q : q ≠ [] → parent (d ++ q) = d ++ parent q.
Proof.
  intros Hq. destruct q as [|n q _] using rev_ind; [done |].
  by rewrite app_assoc, !parent_snoc.
Qed.

Lemma holder_app m d q : q ≠ [] → holder m (d ++ q) = m !! (d ++ parent q).
Proof.
  intros Hq. unfold holder. rewrite parent_app by done.
  destruct (d ++ q) eqn:E; [| done]. by destruct d, q.
Qed.

Lemma list_get_lookup l i w xs x :
  heap w !! l = Some xs → xs !! i = Some x → list_get l i w = Return x w.
Proof.
  intros Hl Hx. unfold list_get, list_read, bind. simpl.
  by rewrite Hl; simpl; rewrite Hx.
Qed.

Lemma list_len_lookup l w xs :
  heap w !! l = Some xs → list_len l w = Return (length xs) w.
Proof. intros Hl. unfold list_len, list_read, bind, ret. by rewrite Hl. Qed.

(** ** One cycle between two separate roots of the expected shape *)

Section Cycle.

Variable self : SyncFiles.
Hypothesis good_source : good_root (source_path self).
Hypothesis good_replica : good_root (replica_path self).

Let SRC := components (source_path self).
Let REP := components (replica_path self).
Let sp (q : list string) := os_path_join (source_path self) (rel_path q).
Let rp (q : list string) := os_path_join (replica_path self) (rel_path q).

Lemma lookup_sp m q :
  valid_names q → q ≠ [] → lookup_path m (sp q) = m !! (SRC ++ q).
Proof. intros. apply lookup_path_join; try done. apply good_source. Qed.

Lemma lookup_rp m q :
  valid_names q → q ≠ [] → lookup_path m (rp q) = m !! (REP ++ q).
Proof. intros. apply lookup_path_join; try done. apply good_replica. Qed.

Lemma components_sp q :
  valid_names q → q ≠ [] → components (sp q) = SRC ++ q.
Proof. intros. apply os_path_join_rel; try done. apply good_source. Qed.

Lemma components_rp q :
  valid_names q → q ≠ [] → components (rp q) = REP ++ q.
Proof. intros. apply os_path_join_rel; try done. apply good_replica. Qed.

Lemma create_dir_step_spec l xs i q w :
  heap w !! l = Some xs → xs !! i = Some (rel_path q) →
  valid_names q → q ≠ [] →
  create_dir_step self l i w
  = if negb (bool_decide (is_Some (fs w !! (REP ++ q))))
       && bool_decide (is_Some (fs w !! (SRC ++ q)))
    then match fs w !! (REP ++ parent q) with
         | None => Raise FileNotFoundError w
         | Some (File _ _) => Raise NotADirectoryError w
         | Some Dir =>
             Return tt (changed [Mkdir (rp q)] (LogEntry "CREATED" (rp q))
                          (<[REP ++ q := Dir]> (fs w)) w)
         end
    else Return tt w.
Proof.
  intros Hl Hx Hv Hq. unfold create_dir_step.
  rewrite (bind_Return _ _ _ _ _ (list_get_lookup l i w xs _ Hl Hx)).
  unfold bind, os_path_exists. fold (rp q) (sp q).
  rewrite lookup_rp, lookup_sp by done.
  destruct (negb _ && _) eqn:Hc; [| done].
  apply andb_prop in Hc as [Hc _]. apply negb_true_iff in Hc.
  apply bool_decide_eq_false in Hc.
  unfold os_mkdir, add_log. rewrite lookup_rp by done.
  destruct (fs w !! (REP ++ q)) as [nd|] eqn:E;
    [exfalso; apply Hc; by eexists |].
  rewrite components_rp, holder_app by done.
  by destruct (fs w !! (REP ++ parent q)) as [[|]|].
Qed.

Lemma delete_dir_step_spec l xs i q w :
  heap w !! l = Some xs → xs !! i = Some (rel_path q) →
  valid_names q → q ≠ [] →
  delete_dir_step self l i w
  = if bool_decide (is_Some (fs w !! (REP ++ q)))
       && negb (bool_decide (is_Some (fs w !! (SRC ++ q))))
    then match fs w !! (REP ++ q) with
         | None => Raise FileNotFoundError w
         | Some (File _ _) => Raise NotADirectoryError w
         | Some Dir =>
             Return tt (changed [Rmtree (rp q)] (LogEntry "REMOVED" (rp q))
                          (filter (λ kv, ¬ (REP ++ q) `prefix_of` kv.1) (fs w)) w)
         end
    else Return tt w.
Proof.
  intros Hl Hx Hv Hq. unfold delete_dir_step.
  rewrite (bind_Return _ _ _ _ _ (list_get_lookup l i w xs _ Hl Hx)).
  unfold bind, os_path_exists. fold (rp q) (sp q).
  rewrite lookup_rp, lookup_sp by done.
  destruct (_ && negb _) eqn:Hc; [| done].
  unfold shutil_rmtree, add_log. rewrite lookup_rp by done.
  rewrite components_rp by done.
  by destruct (fs w !! (REP ++ q)) as [[|]|].
Qed.

Lemma delete_file_step_spec l xs i q w :
  heap w !! l = Some xs → xs !! i = Some (rel_path q) →
  valid_names q → q ≠ [] →
  delete_file_step self l i w
  = if bool_decide (is_Some (fs w !! (REP ++ q)))
       && negb (bool_decide (is_Some (fs w !! (SRC ++ q))))
    then match fs w !! (REP ++ q) with
         | None => Raise FileNotFoundError w
         | Some Dir => Raise IsADirectoryError w
         | Some (File _ _) =>
             Return tt (changed [Remove (rp q)] (LogEntry "REMOVED" (rp q))
                          (delete (REP ++ q) (fs w)) w)
         end
    else Return tt w.
Proof.
  intros Hl Hx Hv Hq. unfold delete_file_step.
  rewrite (bind_Return _ _ _ _ _ (list_get_lookup l i w xs _ Hl Hx)).
  unfold bind, os_path_exists. fold (rp q) (sp q).
  rewrite lookup_rp, lookup_sp by done.
  destruct (_ && negb _) eqn:Hc; [| done].
  unfold os_remove, add_log. rewrite lookup_rp by done.
  rewrite components_rp by done.
  by destruct (fs w !! (REP ++ q)) as [[|]|].
Qed.

Lemma copy_file_step_spec l xs i q w ds ss :
  heap w !! l = Some xs → xs !! i = Some (rel_path q) →
  valid_names q → q ≠ [] →
  fs w !! (SRC ++ q) = Some (File ds ss) →
  (is_Some (fs w !! (REP ++ q)) → fs w !! (REP ++ parent q) = Some Dir) →
  copy_file_step self l i w
  = match fs w !! (REP ++ q) with
    | None =>
        match fs w !! (REP ++ parent q) with
        | None => Raise FileNotFoundError w
        | Some (File _ _) => Raise NotADirectoryError w
        | Some Dir =>
            Return tt (changed [Copy2 (sp q) (rp q)]
                         (LogEntry "CREATED" (rp q))
                         (<[REP ++ q := File ds ss]> (fs w)) w)
        end
    | Some Dir => Raise IsADirectoryError w
    | Some (File dr sr) =>
        if bool_decide (sha256 dr = sha256 ds) then Return tt w
        else Return tt (changed [Remove (rp q); Copy2 (sp q) (rp q)]
                          (LogEntry "MODIFIED" (rp q))
                          (<[REP ++ q := File ds ss]> (delete (REP ++ q) (fs w)))
                          w)
    end.
Proof.
  intros Hl Hx Hv Hq Hsrc Hpar. unfold copy_file_step.
  rewrite (bind_Return _ _ _ _ _ (list_get_lookup l i w xs _ Hl Hx)).
  fold (rp q) (sp q). unfold bind at 1 2. unfold os_path_exists.
  rewrite lookup_rp, lookup_sp, Hsrc by done.
  rewrite (bool_decide_eq_true_2 (is_Some (Some _))) by by eexists.
  rewrite !andb_true_r.
  destruct (fs w !! (REP ++ q)) as [[|dr sr]|] eqn:Hrep.
  - rewrite (bool_decide_eq_true_2 (is_Some (Some _))) by by eexists.
    cbn [negb]. apply bind_Raise. unfold compare_files. apply bind_Raise.
    apply hash_file_dir. by rewrite lookup_rp.
  - rewrite (bool_decide_eq_true_2 (is_Some (Some _))) by by eexists.
    cbn [negb].
    rewrite (bind_Return _ _ _ _ _
      (compare_files_files self (rp q) (sp q) w dr sr ds ss
         ltac:(by rewrite lookup_rp) ltac:(by rewrite lookup_sp))).
    destruct (bool_decide (sha256 dr = sha256 ds)) eqn:Hsame; [done |].
    cbn [negb]. apply bool_decide_eq_false in Hsame.
    assert (SRC ++ q ≠ REP ++ q) as Hne by (intros E; rewrite E in Hsrc; congruence).
    specialize (Hpar (mk_is_Some _ _ eq_refl)).
    assert (REP ++ parent q ≠ REP ++ q) as Hne'.
    { intros E. apply (f_equal length) in E.
      rewrite !length_app in E. unfold parent in E.
      rewrite length_take in E. destruct q; simpl in *; [done | lia]. }
    unfold bind, os_remove. rewrite lookup_rp, Hrep by done.
    unfold shutil_copy2. cbn [fs add_call set_fs].
    rewrite lookup_rp, lookup_sp, !components_rp, components_sp by done.
    rewrite lookup_delete_eq, lookup_delete_ne, Hsrc by done. cbn [holds_dir].
    rewrite lookup_rp, lookup_delete_eq by done.
    rewrite !components_rp by done.
    rewrite holder_app, lookup_delete_ne, Hpar by done.
    unfold add_log, changed, add_entry, add_call, set_fs. simpl.
    by rewrite <- app_assoc.
  - rewrite (bool_decide_eq_false_2 (is_Some None)) by by intros [??].
    cbn [negb]. unfold bind, shutil_copy2.
    rewrite lookup_rp, lookup_sp, Hrep, Hsrc by done. cbn [holds_dir].
    rewrite lookup_rp, Hrep, components_rp, holder_app by done.
    by destruct (fs w !! (REP ++ parent q)) as [[|]|].
Qed.

Lemma copy_file_step_skip l xs i q w :
  heap w !! l = Some xs → xs !! i = Some (rel_path q) →
  valid_names q → q ≠ [] →
  fs w !! (SRC ++ q) = None →
  copy_file_step self l i w = Return tt w.
Proof.
  intros Hl Hx Hv Hq Hsrc. unfold copy_file_step.
  rewrite (bind_Return _ _ _ _ _ (list_get_lookup l i w xs _ Hl Hx)).
  fold (rp q) (sp q). unfold bind, os_path_exists.
  rewrite lookup_sp, Hsrc by done.
  rewrite (bool_decide_eq_false_2 (is_Some None)) by by intros [??].
  by rewrite !andb_false_r.
Qed.


(** ** Mutations keep the file system well formed *)

Lemma wf_fs_intro m :
  m !! [] = Some Dir →
  (∀ d n nd, m !! (d ++ [n]) = Some nd →
     m !! d = Some Dir ∧ valid_names (d ++ [n])) →
  wf_fs m.
Proof.
  intros Hroot Hall. split; [done |]. intros k nd Hk.
  destruct k as [|n k _] using rev_ind; [done |].
  destruct (Hall k n nd Hk) as [Hd Hv].
  assert (wf_key m (k ++ [n])
          = forallb valid_name (k ++ [n]) && holds_dir (m !! parent (k ++ [n])))
    as -> by by destruct k.
  rewrite parent_snoc, Hd. simpl. rewrite andb_true_r.
  apply forallb_forall. intros x Hx. apply list_elem_of_In in Hx.
  unfold valid_names in Hv. rewrite Forall_forall in Hv. by apply Hv.
Qed.

Lemma wf_fs_insert m k nd :
  wf_fs m → m !! k = None → k ≠ [] → m !! parent k = Some Dir →
  valid_names k → wf_fs (<[k := nd]> m).
Proof.
  intros Hwf Hk Hne Hpar Hv. apply wf_fs_intro.
  - rewrite lookup_insert_ne by done. by apply wf_fs_root.
  - intros d n x Hx. destruct (decide (k = d ++ [n])) as [->|Hkn].
    + rewrite parent_snoc in Hpar. split; [| done].
      rewrite lookup_insert_ne; [done |].
      intros E. apply (f_equal length) in E. rewrite length_app in E.
      simpl in E. lia.
    + rewrite lookup_insert_ne in Hx by done.
      destruct (wf_fs_snoc m d n x Hwf Hx) as [Hd Hvn]. split; [| done].
      rewrite lookup_insert_ne; [done |]. intros ->. congruence.
Qed.

Lemma wf_fs_delete_file m k data st :
  wf_fs m → m !! k = Some (File data st) → wf_fs (delete k m).
Proof.
  intros Hwf Hk. apply wf_fs_intro.
  - rewrite lookup_delete_ne; [by apply wf_fs_root |].
    intros ->. rewrite (wf_fs_root m Hwf) in Hk. done.
  - intros d n x Hx. apply lookup_delete_Some in Hx as [Hne Hx].
    destruct (wf_fs_snoc m d n x Hwf Hx) as [Hd Hvn]. split; [| done].
    rewrite lookup_delete_ne; [done |]. intros ->. congruence.
Qed.

Lemma wf_fs_replace_file m k data st data' st' :
  wf_fs m → m !! k = Some (File data st) →
  wf_fs (<[k := File data' st']> (delete k m)).
Proof.
  intros Hwf Hk.
  assert (k ≠ []) as Hne.
  { intros ->. rewrite (wf_fs_root m Hwf) in Hk. done. }
  destruct k as [|n d _] using rev_ind; [done |].
  destruct (wf_fs_snoc m d n _ Hwf Hk) as [Hd Hv].
  apply wf_fs_insert; try done.
  - by eapply wf_fs_delete_file.
  - by rewrite lookup_delete_eq.
  - rewrite parent_snoc, lookup_delete_ne; [done |]. intros E. congruence.
Qed.

Lemma wf_fs_rmtree m k :
  wf_fs m → k ≠ [] → wf_fs (filter (λ kv, ¬ k `prefix_of` kv.1) m).
Proof.
  intros Hwf Hne. apply wf_fs_intro.
  - apply map_lookup_filter_Some. split; [by apply wf_fs_root |].
    simpl. intros Hp. by apply prefix_nil_inv in Hp.
  - intros d n x Hx. apply map_lookup_filter_Some in Hx as [Hx Hp].
    simpl in Hp. destruct (wf_fs_snoc m d n x Hwf Hx) as [Hd Hvn].
    split; [| done]. apply map_lookup_filter_Some. split; [done |].
    simpl. intros Hp'. apply Hp. by apply prefix_app_r.
Qed.

Lemma lookup_rmtree (m : filesystem) (k q : list string) :
  filter (λ kv, ¬ k `prefix_of` kv.1) m !! q
  = if decide (k `prefix_of` q) then None else m !! q.
Proof.
  destruct (decide (k `prefix_of` q)) as [Hp|Hp].
  - apply map_lookup_filter_None. right. intros x _. simpl. tauto.
  - destruct (m !! q) as [x|] eqn:E.
    + apply map_lookup_filter_Some. done.
    + apply map_lookup_filter_None. by left.
Qed.

(** ** A loop over the indices of a list *)

Lemma for_range_inv {A} (I : list A → world → Prop) (E : exn → world → Prop)
    (body : nat → M unit) (xs : list A) w :
  I [] w →
  (∀ done x rest w,
      xs = done ++ x :: rest → I done w →
      match body (length done) w with
      | Return _ w' => I (done ++ [x]) w'
      | Raise e w' => E e w'
      end) →
  match for_range (length xs) body w with
  | Return _ w' => I xs w'
  | Raise e w' => E e w'
  end.
Proof.
  intros H0 Hstep. unfold for_range.
  pose proof (for_each_inv
    (λ idx w, I (take (length idx) xs) w) E body (seq 0 (length xs)) w) as H.
  simpl in H. rewrite length_seq, firstn_all in H. apply H; [done |].
  clear H. intros idone i irest w0 Hseq Hd.
  assert (length idone = i ∧ (i < length xs)%nat) as [Hi Hlt].
  { assert (seq 0 (length xs) !! length idone = Some i) as Hl
      by (rewrite Hseq; by apply list_lookup_middle).
    apply lookup_seq in Hl. lia. }
  destruct (lookup_lt_is_Some_2 xs i Hlt) as [x Hx].
  specialize (Hstep (take i xs) x (drop (S i) xs) w0).
  rewrite length_take_le in Hstep by lia. rewrite Hi in Hd.
  rewrite length_app. simpl. rewrite Hi, Nat.add_1_r.
  rewrite (take_S_r xs i x Hx).
  apply Hstep; [| done]. by rewrite take_drop_middle.
Qed.

Hypothesis apart : separate SRC REP.

Lemma source_not_replica q q' : SRC ++ q ≠ REP ++ q'.
Proof.
  intros E. destruct apart as [H1 H2].
  destruct (prefix_weak_total SRC REP (SRC ++ q)) as [H|H].
  - by apply prefix_app_r.
  - rewrite E. by apply prefix_app_r.
  - done.
  - done.
Qed.

Lemma parent_last (q : list string) : q ≠ [] → ∃ n, q = parent q ++ [n].
Proof.
  intros Hq. destruct q as [|n q _] using rev_ind; [done |].
  exists n. by rewrite parent_snoc.
Qed.

Lemma valid_names_app_r (a b : list string) :
  valid_names (a ++ b) → valid_names b.
Proof. unfold valid_names. rewrite Forall_app. tauto. Qed.

Lemma valid_names_app (a b : list string) :
  valid_names a → valid_names b → valid_names (a ++ b).
Proof. unfold valid_names. rewrite Forall_app. tauto. Qed.

Lemma names_of_good p qs :
  good_root p → Forall valid_names qs → names_of p qs = rel_path <$> qs.
Proof.
  intros Hp Hqs. unfold names_of. apply Forall_fmap_ext_1.
  eapply Forall_impl; [exact Hqs |]. intros q Hq.
  by apply relative_name_path_of.
Qed.

Lemma lookup_fmap_middle {A B} (f : A → B) (done rest : list A) x :
  (f <$> (done ++ x :: rest)) !! length done = Some (f x).
Proof. rewrite list_lookup_fmap, list_lookup_middle; done. Qed.

(** *** The loop that creates directories *)

Lemma create_loop m0 l w :
  wf_fs m0 → m0 !! SRC = Some Dir → m0 !! REP = Some Dir →
  fs w = m0 →
  heap w !! l = Some (rel_path <$> dirs_below m0 SRC) →
  match for_range (length (dirs_below m0 SRC)) (create_dir_step self l) w with
  | Return _ w' =>
      wf_fs (fs w') ∧ grown SRC REP m0 (fs w')
      ∧ (∀ q, q ≠ [] → m0 !! (SRC ++ q) = Some Dir →
           is_Some (fs w' !! (REP ++ q)))
      ∧ heap w' = heap w
      ∧ ∃ qs, log w' = log w ++ ((λ q, LogEntry "CREATED" (rp q)) <$> qs)
              ∧ Forall (λ q, q ≠ [] ∧ m0 !! (SRC ++ q) = Some Dir) qs
  | Raise e _ =>
      e = NotADirectoryError
      ∧ ∃ q d s, m0 !! (SRC ++ q) = Some Dir
                 ∧ m0 !! (REP ++ q) = Some (File d s)
  end.
Proof.
  intros Hwf Hsrc Hrep Hfs Hl.
  set (L := dirs_below m0 SRC) in *.
  opose proof (for_range_inv
    (λ done w',
       wf_fs (fs w') ∧ grown SRC REP m0 (fs w')
       ∧ (∀ q, q ∈ done → is_Some (fs w' !! (REP ++ q)))
       ∧ heap w' = heap w
       ∧ ∃ qs, log w' = log w ++ ((λ q, LogEntry "CREATED" (rp q)) <$> qs)
               ∧ Forall (λ q, q ≠ [] ∧ m0 !! (SRC ++ q) = Some Dir) qs)
    (λ e _, e = NotADirectoryError
            ∧ ∃ q d s, m0 !! (SRC ++ q) = Some Dir
                       ∧ m0 !! (REP ++ q) = Some (File d s))
    (create_dir_step self l) L w _ _) as Hinv.
  - rewrite Hfs. split_and!; try done.
    + split; [done | by left].
    + set_solver.
    + exists []. by rewrite app_nil_r.
  - intros done x rest w1 HL (Hwf1 & Hg1 & Hd1 & Hh1 & qs & Hlg1 & Hqs).
    assert (x ∈ L) as Hx by (rewrite HL; set_solver).
    apply (elem_of_dirs_below m0 SRC x Hwf) in Hx as [Hxne Hxs].
    pose proof (valid_names_app_r _ _ (wf_fs_names _ _ _ Hwf Hxs)) as Hxv.
    rewrite (create_dir_step_spec l (rel_path <$> L) (length done) x w1);
      [| by rewrite Hh1 | rewrite HL; apply lookup_fmap_middle | done..].
    destruct Hg1 as [Hg1 Hg2].
    rewrite (Hg1 _ _ Hxs).
    rewrite (bool_decide_eq_true_2 (is_Some (Some Dir))) by by eexists.
    rewrite andb_true_r.
    destruct (fs w1 !! (REP ++ x)) as [nd|] eqn:Ex.
    { rewrite (bool_decide_eq_true_2 (is_Some (Some nd))) by by eexists.
      simpl. split_and!; try done; [| by exists qs].
      intros q [Hq| ->%list_elem_of_singleton]%elem_of_app;
        [by apply Hd1 | by rewrite Ex]. }
    rewrite (bool_decide_eq_false_2 (is_Some None)) by by intros [??].
    simpl.
    destruct (parent_last x Hxne) as [n Hn].
    assert (is_Some (fs w1 !! (REP ++ parent x))) as [pd Hpd].
    { destruct (decide (parent x = [])) as [->|Hpne].
      - rewrite app_nil_r. exists Dir. by apply Hg1.
      - apply Hd1. eapply (before_done _ x L);
          [apply NoDup_walk_dirs | | exact HL].
        rewrite Hn at 2. apply walk_dirs_before; [done | done |].
        rewrite <- Hn. fold (dirs_below m0 SRC). fold L.
        rewrite HL. set_solver. }
    rewrite Hpd. destruct pd as [|data st].
    2:{ split; [done |]. exists (parent x), data, st.
        destruct (Hg2 _ _ Hpd) as [H0|[? _]]; [| done]. split; [| done].
        rewrite Hn, app_assoc in Hxs.
        by eapply (wf_fs_ancestor m0 _ [n]). }
    unfold changed. simpl.
    assert (REP ++ x ≠ []) as Hne by (by destruct REP, x).
    split_and!.
    + apply wf_fs_insert; try done.
      * by rewrite parent_app.
      * apply valid_names_app; [| done].
        eapply wf_fs_names; [exact Hwf | exact Hrep].
    + split.
      * intros k nd Hk. rewrite lookup_insert_ne; [by apply Hg1 |].
        intros <-. apply Hg1 in Hk. congruence.
      * intros k nd Hk. destruct (decide (REP ++ x = k)) as [<-|Hkne].
        -- rewrite lookup_insert_eq in Hk. simplify_eq. right.
           split; [done |]. by exists x.
        -- rewrite lookup_insert_ne in Hk by done. by apply Hg2.
    + intros q [Hq| ->%list_elem_of_singleton]%elem_of_app.
      * destruct (decide (REP ++ x = REP ++ q)) as [->|Hqne].
        -- rewrite lookup_insert_eq. by eexists.
        -- rewrite lookup_insert_ne by done. by apply Hd1.
      * rewrite lookup_insert_eq. by eexists.
    + done.
    + exists (qs ++ [x]).
      rewrite Hlg1, fmap_app, <- app_assoc. split; [done |].
      apply Forall_app. split; [done |]. by constructor.
  - destruct (for_range (length L) (create_dir_step self l) w) as [[] w'|e w'];
      [| done].
    destruct Hinv as (Hwf' & Hg & Hdone & Hh' & Hlog).
    split_and!; try done.
    intros q Hq Hqs. apply Hdone. by apply elem_of_dirs_below.
Qed.

(** *** The loop that deletes directories *)

Lemma delete_dirs_loop m0 mA l w :
  wf_fs m0 → wf_fs mA → m0 !! SRC = Some Dir →
  (∀ q, mA !! (SRC ++ q) = m0 !! (SRC ++ q)) →
  (∀ q, m0 !! (REP ++ q) = Some Dir → mA !! (REP ++ q) = Some Dir) →
  fs w = mA →
  heap w !! l = Some (rel_path <$> dirs_below m0 REP) →
  ∃ w',
    for_range (length (dirs_below m0 REP)) (delete_dir_step self l) w
    = Return tt w'
    ∧ wf_fs (fs w')
    ∧ (∀ k, fs w' !! k = None ∨ fs w' !! k = mA !! k)
    ∧ (∀ k, fs w' !! k = None →
         mA !! k = None
         ∨ ∃ q, q ≠ [] ∧ m0 !! (REP ++ q) = Some Dir
                ∧ m0 !! (SRC ++ q) = None ∧ (REP ++ q) `prefix_of` k)
    ∧ (∀ q, q ≠ [] → m0 !! (REP ++ q) = Some Dir → m0 !! (SRC ++ q) = None →
         fs w' !! (REP ++ q) = None)
    ∧ heap w' = heap w
    ∧ ∃ qs, log w' = log w ++ ((λ q, LogEntry "REMOVED" (rp q)) <$> qs)
            ∧ NoDup qs ∧ ∀ q, q ∈ qs ↔ replica_only_top SRC REP m0 q.
Proof.
  intros Hwf HwfA Hsrc HsA HrA Hfs Hl.
  set (L := dirs_below m0 REP) in *.
  assert (NoDup L) as HND by apply NoDup_walk_dirs.
  opose proof (for_range_inv
    (λ done w',
       wf_fs (fs w')
       ∧ (∀ k, fs w' !! k = None ∨ fs w' !! k = mA !! k)
       ∧ (∀ k, fs w' !! k = None →
            mA !! k = None
            ∨ ∃ q, q ∈ done ∧ m0 !! (SRC ++ q) = None
                   ∧ (REP ++ q) `prefix_of` k)
       ∧ (∀ q, q ∈ done → m0 !! (SRC ++ q) = None →
            fs w' !! (REP ++ q) = None)
       ∧ heap w' = heap w
       ∧ ∃ qs, log w' = log w ++ ((λ q, LogEntry "REMOVED" (rp q)) <$> qs)
               ∧ qs `sublist_of` done
               ∧ ∀ q, q ∈ qs ↔ q ∈ done ∧ replica_only_top SRC REP m0 q)
    (λ _ _, False)
    (delete_dir_step self l) L w _ _) as Hinv.
  - rewrite Hfs. split_and!; try done.
    + by right.
    + by left.
    + set_solver.
    + exists []. rewrite app_nil_r. split_and!; [done.. |]. set_solver.
  - intros done x rest w1 HL
      (Hwf1 & Hsub & Hkept & Hrem & Hh1 & qs & Hlg1 & Hqs1 & Hqs2).
    assert (x ∈ L) as Hx by (rewrite HL; set_solver).
    assert (x ∉ done) as Hxnd.
    { rewrite HL in HND. apply NoDup_app in HND as (_ & HND & _).
      intros Hin. apply (HND x Hin). set_solver. }
    apply (elem_of_dirs_below m0 REP x Hwf) in Hx as [Hxne Hxr].
    pose proof (valid_names_app_r _ _ (wf_fs_names _ _ _ Hwf Hxr)) as Hxv.
    destruct (parent_last x Hxne) as [n Hn].
    assert (∀ y, fs w1 !! (SRC ++ y) = m0 !! (SRC ++ y)) as Hsame.
    { intros y. rewrite <- HsA. destruct (Hsub (SRC ++ y)) as [HN|]; [| done].
      destruct (Hkept _ HN) as [HA|(q & _ & _ & [r Hr])]; [congruence |].
      rewrite <- app_assoc in Hr. by apply source_not_replica in Hr. }
    assert (fs w1 !! (REP ++ x) = None ∨ fs w1 !! (REP ++ x) = Some Dir)
      as Hrx.
    { destruct (Hsub (REP ++ x)) as [|Hs]; [by left | right].
      rewrite Hs. by apply HrA. }
    assert (fs w1 !! (REP ++ x) = None → ¬ replica_only_top SRC REP m0 x)
      as Hnotop.
    { intros HN (_ & _ & Hxs & Hpar).
      destruct (Hkept _ HN) as [HA|(q & Hq & Hqs & Hpre)].
      - rewrite (HrA _ Hxr) in HA. done.
      - apply prefix_app_inv in Hpre as [r Hr].
        destruct (decide (r = [])) as [->|Hrne].
        + rewrite app_nil_r in Hr. by subst.
        + rewrite Hr, parent_app in Hpar by done.
          rewrite app_assoc in Hpar.
          apply wf_fs_is_Some_ancestor in Hpar; [| done].
          rewrite Hqs in Hpar. by destruct Hpar. }
    rewrite (delete_dir_step_spec l (rel_path <$> L) (length done) x w1);
      [| by rewrite Hh1 | rewrite HL; apply lookup_fmap_middle | done..].
    rewrite Hsame.
    assert ((fs w1 !! (REP ++ x) = Some Dir ∧ m0 !! (SRC ++ x) = None)
            ∨ ¬ (fs w1 !! (REP ++ x) = Some Dir ∧ m0 !! (SRC ++ x) = None))
      as [[Hr Hs]|Hno].
    { destruct Hrx as [Hr|Hr]; [right; intros [??]; congruence |].
      destruct (m0 !! (SRC ++ x)); [right; by intros [??] | by left]. }
    + rewrite Hr, Hs.
      rewrite (bool_decide_eq_true_2 (is_Some (Some Dir))) by by eexists.
      rewrite (bool_decide_eq_false_2 (is_Some None)) by by intros [??].
      simpl. unfold changed. simpl.
      assert (REP ++ x ≠ []) as Hne by (by destruct REP, x).
      split_and!.
      * by apply wf_fs_rmtree.
      * intros k. rewrite lookup_rmtree. destruct (decide _); [by left | done].
      * intros k. rewrite lookup_rmtree. destruct (decide _) as [Hp|Hp].
        -- intros _. right. exists x. split_and!; [set_solver | done..].
        -- intros HN. destruct (Hkept _ HN) as [|(q & Hq & ? & ?)];
             [by left | right].
           exists q. split_and!; [set_solver | done..].
      * intros q Hq Hqs. rewrite lookup_rmtree.
        destruct (decide _) as [Hp|Hp]; [done |].
        apply elem_of_app in Hq as [Hq| ->%list_elem_of_singleton];
          [by apply Hrem | done].
      * done.
      * exists (qs ++ [x]). rewrite Hlg1, fmap_app, <- app_assoc.
        split_and!; [done | by apply sublist_app |].
        assert (replica_only_top SRC REP m0 x) as Htop.
        { split_and!; try done.
          destruct (m0 !! (SRC ++ parent x)) as [pn|] eqn:Ep; [by eexists |].
          exfalso.
          assert (parent x ≠ []) as Hpne.
          { intros E. rewrite E, app_nil_r in Ep. congruence. }
          assert (m0 !! (REP ++ parent x) = Some Dir) as Hpr.
          { rewrite Hn, app_assoc in Hxr.
            by eapply (wf_fs_ancestor m0 _ [n]). }
          assert (parent x ∈ done) as Hpd.
          { eapply (before_done _ x L); [done | | exact HL].
            rewrite Hn at 2. apply walk_dirs_before; [done | done |].
            rewrite <- Hn. fold (dirs_below m0 REP). fold L.
            rewrite HL. set_solver. }
          pose proof (Hrem _ Hpd Ep) as HN.
          assert (is_Some (fs w1 !! (REP ++ parent x))) as [? HS].
          { apply (wf_fs_is_Some_ancestor _ _ [n]); [done |].
            rewrite <- app_assoc, <- Hn, Hr. by eexists. }
          congruence. }
        intros q. rewrite !elem_of_app, !list_elem_of_singleton, Hqs2.
        split; [intros [[??]| ->] | intros [[?| ->] ?]]; auto.
    + assert (bool_decide (is_Some (fs w1 !! (REP ++ x)))
              && negb (bool_decide (is_Some (m0 !! (SRC ++ x)))) = false)
        as ->.
      { destruct Hrx as [Hr|Hr]; rewrite Hr; [done |].
        destruct (m0 !! (SRC ++ x)) as [sn|] eqn:Es;
          [| exfalso; apply Hno; by split].
        rewrite (bool_decide_eq_true_2 (is_Some (Some sn))) by by eexists.
        apply andb_false_r. }
      assert (m0 !! (SRC ++ x) = None → fs w1 !! (REP ++ x) = None) as HxN.
      { intros Hs. destruct Hrx as [|Hr]; [done |]. by destruct Hno. }
      split_and!; try done.
      * intros k HN. destruct (Hkept _ HN) as [|(q & Hq & ? & ?)];
          [by left | right].
        exists q. split_and!; [set_solver | done..].
      * intros q [Hq| ->%list_elem_of_singleton]%elem_of_app;
          [by apply Hrem | done].
      * exists qs. split_and!; [done | by apply sublist_inserts_r |].
        intros q. rewrite Hqs2, elem_of_app, list_elem_of_singleton.
        split; [intros [??]; auto | intros [[?| ->] Htop]; [done |]].
        exfalso. apply Hnotop; [| done]. apply HxN. apply Htop.
  - destruct (for_range (length L) (delete_dir_step self l) w) as [[] w'|e w'];
      [| done].
    destruct Hinv as (Hwf' & Hsub & Hkept & Hrem & Hh' & qs & Hlg & Hqs1 & Hqs2).
    exists w'. split_and!; try done.
    + intros k HN. destruct (Hkept _ HN) as [|(q & Hq & ? & ?)];
        [by left | right].
      apply (elem_of_dirs_below m0 REP q Hwf) in Hq as [??].
      by exists q.
    + intros q Hq Hqr Hqs. apply Hrem; [| done]. by apply elem_of_dirs_below.
    + exists qs. split_and!; [done | by eapply sublist_NoDup |].
      intros q. rewrite Hqs2. split; [tauto |]. intros Htop. split; [| done].
      apply elem_of_dirs_below; [done |]. split; apply Htop.
Qed.

(** *** The loop that copies files *)

Lemma copy_loop mB l w :
  wf_fs mB → fs w = mB →
  heap w !! l = Some (rel_path <$> files_below mB SRC) →
  match for_range (length (files_below mB SRC)) (copy_file_step self l) w with
  | Return _ w' =>
      wf_fs (fs w')
      ∧ (∀ k, fs w' !! k = mB !! k
              ∨ ∃ x ds ss, x ≠ [] ∧ k = REP ++ x
                           ∧ mB !! (SRC ++ x) = Some (File ds ss)
                           ∧ fs w' !! k = Some (File ds ss))
      ∧ (∀ x ds ss, x ≠ [] → mB !! (SRC ++ x) = Some (File ds ss) →
           ∃ dr sr, fs w' !! (REP ++ x) = Some (File dr sr)
                    ∧ sha256 dr = sha256 ds)
      ∧ heap w' = heap w
      ∧ ∃ es, log w' = log w ++ es ∧ Forall (copy_entry SRC rp mB) es
  | Raise _ _ => True
  end.
Proof.
  intros Hwf Hfs Hl.
  set (L := files_below mB SRC) in *.
  assert (NoDup L) as HND by apply NoDup_walk_files.
  opose proof (for_range_inv
    (λ done w',
       wf_fs (fs w')
       ∧ (∀ k, fs w' !! k = mB !! k
               ∨ ∃ x ds ss, x ≠ [] ∧ k = REP ++ x
                            ∧ mB !! (SRC ++ x) = Some (File ds ss)
                            ∧ fs w' !! k = Some (File ds ss))
       ∧ (∀ x ds ss, x ∈ done → mB !! (SRC ++ x) = Some (File ds ss) →
            ∃ dr sr, fs w' !! (REP ++ x) = Some (File dr sr)
                     ∧ sha256 dr = sha256 ds)
       ∧ heap w' = heap w
       ∧ ∃ es, log w' = log w ++ es ∧ Forall (copy_entry SRC rp mB) es)
    (λ _ _, True)
    (copy_file_step self l) L w _ _) as Hinv.
  - rewrite Hfs. split_and!; try done.
    + by left.
    + by intros ??? ?%elem_of_nil.
    + exists []. by rewrite app_nil_r.
  - intros done x rest w1 HL (Hwf1 & Hch & Hsy & Hh1 & es & Hlg1 & Hes).
    assert (x ∈ L) as Hx.
    { rewrite HL. apply elem_of_app. right. by left. }
    assert (x ∉ done) as Hxnd.
    { rewrite HL in HND. apply NoDup_app in HND as (_ & HND & _).
      intros Hin. apply (HND x Hin). by left. }
    apply (elem_of_files_below mB SRC x Hwf) in Hx as [Hxne (ds & ss & Hxs)].
    pose proof (valid_names_app_r _ _ (wf_fs_names _ _ _ Hwf Hxs)) as Hxv.
    destruct (parent_last x Hxne) as [n Hn].
    assert (fs w1 !! (SRC ++ x) = Some (File ds ss)) as Hxs1.
    { destruct (Hch (SRC ++ x)) as [->|(x' & ? & ? & _ & E & _)]; [done |].
      by apply source_not_replica in E. }
    assert (is_Some (fs w1 !! (REP ++ x)) →
            fs w1 !! (REP ++ parent x) = Some Dir) as Hpar.
    { intros [nd Hnd]. rewrite Hn, app_assoc in Hnd.
      by eapply (wf_fs_ancestor _ _ [n]). }
    rewrite (copy_file_step_spec l (rel_path <$> L) (length done) x w1 ds ss);
      [| by rewrite Hh1 | rewrite HL; apply lookup_fmap_middle | done..].
    assert (∀ w2 e,
      fs w2 = <[REP ++ x := File ds ss]> (fs w1) → wf_fs (fs w2) →
      heap w2 = heap w1 → log w2 = log w1 ++ [e] → le_path e = rp x →
      le_action e = "CREATED" ∨ le_action e = "MODIFIED" →
      wf_fs (fs w2)
      ∧ (∀ k, fs w2 !! k = mB !! k
              ∨ ∃ x ds ss, x ≠ [] ∧ k = REP ++ x
                           ∧ mB !! (SRC ++ x) = Some (File ds ss)
                           ∧ fs w2 !! k = Some (File ds ss))
      ∧ (∀ x0 ds ss, x0 ∈ done ++ [x] →
           mB !! (SRC ++ x0) = Some (File ds ss) →
           ∃ dr sr, fs w2 !! (REP ++ x0) = Some (File dr sr)
                    ∧ sha256 dr = sha256 ds)
      ∧ heap w2 = heap w
      ∧ ∃ es, log w2 = log w ++ es ∧ Forall (copy_entry SRC rp mB) es)
      as Hstep.
    { intros w2 e Hfs2 Hwf2 Hh2 Hlg2 Hp Ha. rewrite Hfs2.
      split_and!.
      - by rewrite <- Hfs2.
      - intros k. destruct (decide (REP ++ x = k)) as [<-|Hk].
        + right. exists x, ds, ss. by rewrite lookup_insert_eq.
        + rewrite lookup_insert_ne by done. apply Hch.
      - intros x0 ds0 ss0 [Hx0| ->%list_elem_of_singleton]%elem_of_app Hs0.
        + rewrite lookup_insert_ne; [by eapply Hsy |].
          intros E%app_inv_head. by subst.
        + rewrite lookup_insert_eq. exists ds, ss. split; [done |].
          congruence.
      - congruence.
      - exists (es ++ [e]). rewrite Hlg2, Hlg1, <- app_assoc.
        split; [done |]. apply Forall_app. split; [done |].
        constructor; [| constructor]. by exists x, ds, ss. }
    destruct (fs w1 !! (REP ++ x)) as [[|dr sr]|] eqn:Er; [done | |].
    + destruct (bool_decide (sha256 dr = sha256 ds)) eqn:Hd.
      * apply bool_decide_eq_true in Hd. split_and!; try done; [| by exists es].
        intros x0 ds0 ss0 [Hx0| ->%list_elem_of_singleton]%elem_of_app Hs0;
          [by eapply Hsy |].
        exists dr, sr. split; [done |]. congruence.
      * eapply Hstep; simpl; auto.
        -- by rewrite insert_delete_eq.
        -- by eapply wf_fs_replace_file.
    + destruct (fs w1 !! (REP ++ parent x)) as [[|??]|] eqn:Ep; [| done..].
      eapply Hstep; simpl; auto.
      apply wf_fs_insert; try done.
      * by destruct REP, x.
      * by rewrite parent_app.
      * apply valid_names_app; [| done].
        pose proof (wf_fs_names _ _ _ Hwf1 Ep) as Hv.
        unfold valid_names in Hv. rewrite Forall_app in Hv. apply Hv.
  - destruct (for_range (length L) (copy_file_step self l) w) as [[] w'|e w'];
      [| done].
    destruct Hinv as (Hwf' & Hch & Hsy & Hh' & Hlog).
    split_and!; try done.
    intros x ds ss Hx Hxs. eapply Hsy; [| done].
    apply elem_of_files_below; [done |]. split; [done |]. by exists ds, ss.
Qed.

(** *** The loop that deletes files *)

Lemma delete_files_loop mB mC l w :
  wf_fs mB → wf_fs mC →
  (∀ x d s, mB !! (REP ++ x) = Some (File d s) →
     ∃ d' s', mC !! (REP ++ x) = Some (File d' s')) →
  fs w = mC →
  heap w !! l = Some (rel_path <$> files_below mB REP) →
  ∃ w',
    for_range (length (files_below mB REP)) (delete_file_step self l) w
    = Return tt w'
    ∧ wf_fs (fs w')
    ∧ (∀ k, fs w' !! k = mC !! k
            ∨ (fs w' !! k = None
               ∧ ∃ x d s, x ≠ [] ∧ k = REP ++ x
                          ∧ mB !! (REP ++ x) = Some (File d s)
                          ∧ mC !! (SRC ++ x) = None))
    ∧ (∀ x d s, x ≠ [] → mB !! (REP ++ x) = Some (File d s) →
         mC !! (SRC ++ x) = None → fs w' !! (REP ++ x) = None)
    ∧ heap w' = heap w
    ∧ ∃ qs, log w' = log w ++ ((λ q, LogEntry "REMOVED" (rp q)) <$> qs)
            ∧ Forall (λ q, q ≠ [] ∧ is_file_at mB (REP ++ q)
                           ∧ mC !! (SRC ++ q) = None) qs.
Proof.
  intros Hwf HwfC HBC Hfs Hl.
  set (L := files_below mB REP) in *.
  opose proof (for_range_inv
    (λ done w',
       wf_fs (fs w')
       ∧ (∀ k, fs w' !! k = mC !! k
               ∨ (fs w' !! k = None
                  ∧ ∃ x d s, x ≠ [] ∧ k = REP ++ x
                             ∧ mB !! (REP ++ x) = Some (File d s)
                             ∧ mC !! (SRC ++ x) = None))
       ∧ (∀ x, x ∈ done → mC !! (SRC ++ x) = None →
            fs w' !! (REP ++ x) = None)
       ∧ heap w' = heap w
       ∧ ∃ qs, log w' = log w ++ ((λ q, LogEntry "REMOVED" (rp q)) <$> qs)
               ∧ Forall (λ q, q ≠ [] ∧ is_file_at mB (REP ++ q)
                              ∧ mC !! (SRC ++ q) = None) qs)
    (λ _ _, False)
    (delete_file_step self l) L w _ _) as Hinv.
  - rewrite Hfs. split_and!; try done.
    + by left.
    + by intros ? ?%elem_of_nil.
    + exists []. by rewrite app_nil_r.
  - intros done x rest w1 HL (Hwf1 & Hch & Hrem & Hh1 & qs & Hlg1 & Hqs).
    assert (x ∈ L) as Hx.
    { rewrite HL. apply elem_of_app. right. by left. }
    apply (elem_of_files_below mB REP x Hwf) in Hx as [Hxne (d & s & Hxr)].
    pose proof (valid_names_app_r _ _ (wf_fs_names _ _ _ Hwf Hxr)) as Hxv.
    assert (fs w1 !! (SRC ++ x) = mC !! (SRC ++ x)) as Hsame.
    { destruct (Hch (SRC ++ x)) as [|(_ & x' & ? & ? & _ & E & _)]; [done |].
      by apply source_not_replica in E. }
    destruct (HBC _ _ _ Hxr) as (d' & s' & HxC).
    assert (fs w1 !! (REP ++ x) = None
            ∨ fs w1 !! (REP ++ x) = Some (File d' s')) as Hrx.
    { destruct (Hch (REP ++ x)) as [E|[E _]]; [right | left]; congruence. }
    rewrite (delete_file_step_spec l (rel_path <$> L) (length done) x w1);
      [| by rewrite Hh1 | rewrite HL; apply lookup_fmap_middle | done..].
    rewrite Hsame.
    assert ((fs w1 !! (REP ++ x) = Some (File d' s')
             ∧ mC !! (SRC ++ x) = None)
            ∨ (mC !! (SRC ++ x) = None → fs w1 !! (REP ++ x) = None))
      as [[Hr Hs]|Hno].
    { destruct Hrx as [Hr|Hr]; [by right |].
      destruct (mC !! (SRC ++ x)); [by right | by left]. }
    + rewrite Hr, Hs.
      rewrite (bool_decide_eq_true_2 (is_Some (Some _))) by by eexists.
      rewrite (bool_decide_eq_false_2 (is_Some None)) by by intros [??].
      simpl. unfold changed. simpl.
      split_and!.
      * by eapply wf_fs_delete_file.
      * intros k. destruct (decide (REP ++ x = k)) as [<-|Hk].
        -- right. rewrite lookup_delete_eq. split; [done |]. by exists x, d, s.
        -- rewrite lookup_delete_ne by done. apply Hch.
      * intros x0 [Hx0| ->%list_elem_of_singleton]%elem_of_app Hs0.
        -- apply lookup_delete_None. right. by apply Hrem.
        -- apply lookup_delete_eq.
      * done.
      * exists (qs ++ [x]). rewrite Hlg1, fmap_app, <- app_assoc.
        split; [done |]. apply Forall_app. split; [done |].
        constructor; [| constructor]. split_and!; [done | | done].
        by exists d, s.
    + assert (bool_decide (is_Some (fs w1 !! (REP ++ x)))
              && negb (bool_decide (is_Some (mC !! (SRC ++ x)))) = false)
        as ->.
      { destruct (mC !! (SRC ++ x)) as [sn|] eqn:Es.
        - rewrite (bool_decide_eq_true_2 (is_Some (Some sn))) by by eexists.
          apply andb_false_r.
        - by rewrite Hno. }
      split_and!; try done; [| by exists qs].
      intros x0 [Hx0| ->%list_elem_of_singleton]%elem_of_app Hs0;
        [by apply Hrem | by apply Hno].
  - destruct (for_range (length L) (delete_file_step self l) w) as [[] w'|e w'];
      [| done].
    destruct Hinv as (Hwf' & Hch & Hrem & Hh' & Hlog).
    exists w'. split_and!; try done.
    intros x d s Hx Hxr Hxs. apply Hrem; [| done].
    apply elem_of_files_below; [done |]. split; [done |]. by exists d, s.
Qed.

(** *** [sync_folders] *)

Lemma valid_names_dirs_below m d :
  wf_fs m → Forall valid_names (dirs_below m d).
Proof.
  intros Hwf. apply Forall_forall. intros q [_ Hq]%elem_of_dirs_below; [| done].
  eapply valid_names_app_r, wf_fs_names; [exact Hwf | exact Hq].
Qed.

Lemma valid_names_files_below m d :
  wf_fs m → Forall valid_names (files_below m d).
Proof.
  intros Hwf. apply Forall_forall.
  intros q [_ (ds & ss & Hq)]%elem_of_files_below; [| done].
  eapply valid_names_app_r, wf_fs_names; [exact Hwf | exact Hq].
Qed.

Lemma sync_folders_spec w :
  wf_fs (fs w) → fs w !! SRC = Some Dir → fs w !! REP = Some Dir →
  source_folders self ≠ replica_folders self →
  heap w !! source_folders self = Some [] →
  heap w !! replica_folders self = Some [] →
  match sync_folders self w with
  | Return _ w' =>
      folders_synced SRC REP (fs w) (fs w')
      ∧ (∀ l, l ≠ source_folders self → l ≠ replica_folders self →
           heap w' !! l = heap w !! l)
      ∧ ∃ qa qb,
          log w' = log w ++ ((λ q, LogEntry "CREATED" (rp q)) <$> qa)
                         ++ ((λ q, LogEntry "REMOVED" (rp q)) <$> qb)
          ∧ Forall (λ q, q ≠ [] ∧ fs w !! (SRC ++ q) = Some Dir) qa
          ∧ NoDup qb ∧ ∀ q, q ∈ qb ↔ replica_only_top SRC REP (fs w) q
  | Raise e _ =>
      e = NotADirectoryError
      ∧ ∃ q d s, fs w !! (SRC ++ q) = Some Dir
                 ∧ fs w !! (REP ++ q) = Some (File d s)
  end.
Proof.
  intros Hwf Hsrc Hrep Hne Hsf Hrf.
  set (m0 := fs w) in *.
  set (sf := source_folders self) in *.
  set (rf := replica_folders self) in *.
  unfold sync_folders. fold sf rf.
  rewrite (bind_Return _ _ _ _ _
    (list_dirs_spec self sf (source_path self) w Hwf (proj1 good_source) Hsrc)).
  fold SRC m0. rewrite names_of_good by (done || by apply valid_names_dirs_below).
  set (w1 := appended sf _ w).
  rewrite (bind_Return _ _ _ _ _
    (list_dirs_spec self rf (replica_path self) w1 Hwf (proj1 good_replica) Hrep)).
  change (fs w1) with m0.
  fold REP. rewrite names_of_good by (done || by apply valid_names_dirs_below).
  set (w2 := appended rf _ w1).
  assert (heap w2 !! sf = Some (rel_path <$> dirs_below m0 SRC)) as Hsf2.
  { unfold w2. rewrite heap_appended_ne by done.
    unfold w1. by rewrite (heap_appended_eq _ _ _ [])  by done. }
  assert (heap w2 !! rf = Some (rel_path <$> dirs_below m0 REP)) as Hrf2.
  { unfold w2. rewrite (heap_appended_eq _ _ _ []); [done |].
    unfold w1. by rewrite heap_appended_ne. }
  rewrite (bind_Return _ _ _ _ _ (list_len_lookup sf w2 _ Hsf2)).
  rewrite length_fmap.
  pose proof (create_loop m0 sf w2 Hwf Hsrc Hrep eq_refl Hsf2) as HA.
  unfold bind at 1.
  destruct (for_range _ (create_dir_step self sf) w2) as [[] wA|e wA];
    [| exact HA].
  destruct HA as (HwfA & [Hg1 Hg2] & HQ1 & HhA & qa & HlgA & Hqa).
  assert (heap wA !! rf = Some (rel_path <$> dirs_below m0 REP)) as HrfA
    by by rewrite HhA.
  rewrite (bind_Return _ _ _ _ _ (list_len_lookup rf wA _ HrfA)).
  rewrite length_fmap.
  assert (∀ q, fs wA !! (SRC ++ q) = m0 !! (SRC ++ q)) as HsA.
  { intros q. destruct (fs wA !! (SRC ++ q)) as [nd|] eqn:E.
    - destruct (Hg2 _ _ E) as [|(_ & q' & _ & E' & _)]; [done |].
      by apply source_not_replica in E'.
    - destruct (m0 !! (SRC ++ q)) as [nd|] eqn:E0; [| done].
      apply Hg1 in E0. congruence. }
  destruct (delete_dirs_loop m0 (fs wA) rf wA Hwf HwfA Hsrc HsA
              (λ q H, Hg1 _ _ H) eq_refl HrfA)
    as (wB & -> & HwfB & Hsub & Hkept & Hrem & HhB & qb & HlgB & Hqb1 & Hqb2).
  assert (∀ k, (∀ q, q ≠ [] → m0 !! (SRC ++ q) = None →
                 ¬ (REP ++ q) `prefix_of` k) →
               fs wB !! k = fs wA !! k) as Hstay.
  { intros k Hk. destruct (Hsub k) as [HN|]; [| done].
    destruct (Hkept k HN) as [|(q & ? & ? & ? & ?)]; [congruence |].
    by destruct (Hk q). }
  split_and!.
  - split_and!.
    + done.
    + intros q. rewrite <- HsA. apply Hstay. intros q' _ _ [r Hr].
      rewrite <- app_assoc in Hr. by apply source_not_replica in Hr.
    + rewrite Hstay; [by apply Hg1 |]. intros q Hq _ [r Hr].
      rewrite <- app_assoc in Hr. rewrite <- (app_nil_r REP) in Hr at 1.
      apply app_inv_head in Hr. by destruct q.
    + intros q Hq Hqs. rewrite Hstay; [by apply HQ1 |].
      intros q' Hq' Hs' [r Hr]%prefix_app_inv. subst q.
      rewrite app_assoc in Hqs.
      assert (is_Some (m0 !! (SRC ++ q'))) as [? ?]; [| congruence].
      eapply wf_fs_is_Some_ancestor; [done |]. by eexists.
    + intros q Hq Hqr. destruct (Hsub (REP ++ q)) as [|E]; [congruence |].
      rewrite E in Hqr. destruct (Hg2 _ _ Hqr) as [H0|(_ & q' & _ & E' & Hs')].
      * destruct (m0 !! (SRC ++ q)) eqn:Es; [by eexists |].
        rewrite (Hrem q Hq H0 Es) in E. congruence.
      * apply app_inv_head in E'. subst q'. by eexists.
    + intros q nd Hq. destruct (Hsub (REP ++ q)) as [|E]; [congruence |].
      rewrite E in Hq. destruct (Hg2 _ _ Hq) as [|(-> & _)]; [by left |].
      destruct (m0 !! (REP ++ q)) as [nd0|] eqn:E0; [| by right].
      left. apply Hg1 in E0. congruence.
    + done.
  - intros l Hl1 Hl2. rewrite HhB, HhA. unfold w2, w1.
    by rewrite !heap_appended_ne.
  - exists qa, qb. split_and!; try done.
    by rewrite HlgB, HlgA, <- app_assoc.
Qed.

(** *** [sync_files] *)

Lemma sync_files_spec w :
  wf_fs (fs w) → fs w !! SRC = Some Dir → fs w !! REP = Some Dir →
  source_files self ≠ replica_files self →
  heap w !! source_files self = Some [] →
  heap w !! replica_files self = Some [] →
  match sync_files self w with
  | Return _ w' =>
      files_synced SRC REP (fs w) (fs w')
      ∧ (∀ l, l ≠ source_files self → l ≠ replica_files self →
           heap w' !! l = heap w !! l)
      ∧ ∃ es qd,
          log w' = log w ++ es ++ ((λ q, LogEntry "REMOVED" (rp q)) <$> qd)
          ∧ Forall (copy_entry SRC rp (fs w)) es
          ∧ Forall (λ q, q ≠ [] ∧ is_file_at (fs w) (REP ++ q)
                         ∧ fs w !! (SRC ++ q) = None) qd
  | Raise _ _ => True
  end.
Proof.
  intros Hwf Hsrc Hrep Hne Hsf Hrf.
  set (mB := fs w) in *.
  set (sf := source_files self) in *.
  set (rf := replica_files self) in *.
  unfold sync_files. fold sf rf.
  rewrite (bind_Return _ _ _ _ _
    (list_files_spec self sf (source_path self) w Hwf (proj1 good_source) Hsrc)).
  fold SRC mB.
  rewrite names_of_good by (done || by apply valid_names_files_below).
  set (w1 := appended sf _ w).
  rewrite (bind_Return _ _ _ _ _
    (list_files_spec self rf (replica_path self) w1 Hwf (proj1 good_replica)
       Hrep)).
  change (fs w1) with mB.
  fold REP. rewrite names_of_good by (done || by apply valid_names_files_below).
  set (w2 := appended rf _ w1).
  assert (heap w2 !! sf = Some (rel_path <$> files_below mB SRC)) as Hsf2.
  { unfold w2. rewrite heap_appended_ne by done.
    unfold w1. by rewrite (heap_appended_eq _ _ _ [])  by done. }
  assert (heap w2 !! rf = Some (rel_path <$> files_below mB REP)) as Hrf2.
  { unfold w2. rewrite (heap_appended_eq _ _ _ []); [done |].
    unfold w1. by rewrite heap_appended_ne. }
  rewrite (bind_Return _ _ _ _ _ (list_len_lookup sf w2 _ Hsf2)).
  rewrite length_fmap.
  pose proof (copy_loop mB sf w2 Hwf eq_refl Hsf2) as HC.
  unfold bind at 1.
  destruct (for_range _ (copy_file_step self sf) w2) as [[] wC|e wC];
    [| done].
  destruct HC as (HwfC & Hch & Hsy & HhC & es & HlgC & Hes).
  assert (heap wC !! rf = Some (rel_path <$> files_below mB REP)) as HrfC
    by by rewrite HhC.
  rewrite (bind_Return _ _ _ _ _ (list_len_lookup rf wC _ HrfC)).
  rewrite length_fmap.
  assert (∀ q, fs wC !! (SRC ++ q) = mB !! (SRC ++ q)) as HsC.
  { intros q. destruct (Hch (SRC ++ q)) as [|(x & ? & ? & _ & E & _)]; [done |].
    by apply source_not_replica in E. }
  opose proof (delete_files_loop mB (fs wC) rf wC Hwf HwfC _ eq_refl HrfC)
    as (wD & -> & HwfD & HchD & HremD & HhD & qd & HlgD & Hqd).
  { intros x d s Hx.
    destruct (Hch (REP ++ x)) as [E|(x' & ds & ss & _ & _ & _ & E)].
    - exists d, s. congruence.
    - by exists ds, ss. }
  split_and!.
  - split_and!.
    + done.
    + intros k. destruct (HchD k) as [E|[E (x & d & s & ? & ? & ? & ?)]].
      * rewrite E. destruct (Hch k) as [|(x & ds & ss & ? & ? & ? & ?)];
          [by left | right; left]. by exists x, ds, ss.
      * right; right. split; [done |]. exists x. split_and!; try done.
        -- by exists d, s.
        -- by rewrite <- HsC.
    + intros x ds ss Hx Hxs. destruct (Hsy x ds ss Hx Hxs) as (dr & sr & E & ?).
      exists dr, sr. split; [| done].
      destruct (HchD (REP ++ x)) as [E'|[_ (x' & _ & _ & _ & Ex & _ & Hs')]];
        [congruence |].
      apply app_inv_head in Ex. subst x'. rewrite HsC in Hs'. congruence.
    + intros x Hx (d & s & Hxr) Hxs. eapply HremD; [done.. |].
      by rewrite HsC.
  - intros l Hl1 Hl2. rewrite HhD, HhC. unfold w2, w1.
    by rewrite !heap_appended_ne.
  - exists es, qd. split_and!.
    + by rewrite HlgD, HlgC, <- app_assoc.
    + done.
    + eapply Forall_impl; [exact Hqd |]. intros q (? & ? & Hs).
      split_and!; try done. by rewrite <- HsC.
Qed.

(** *** [full_sync] *)

Lemma full_sync_spec w :
  wf_fs (fs w) → fs w !! SRC = Some Dir → fs w !! REP = Some Dir →
  lists_ready self w →
  match full_sync self w with
  | Return self' w' =>
      source_path self' = source_path self
      ∧ replica_path self' = replica_path self
      ∧ lists_ready self' w'
      ∧ ∃ mB qa qb es qd,
          folders_synced SRC REP (fs w) mB
          ∧ files_synced SRC REP mB (fs w')
          ∧ log w' = log w ++ ((λ q, LogEntry "CREATED" (rp q)) <$> qa)
                           ++ ((λ q, LogEntry "REMOVED" (rp q)) <$> qb)
                           ++ es
                           ++ ((λ q, LogEntry "REMOVED" (rp q)) <$> qd)
          ∧ Forall (λ q, q ≠ [] ∧ fs w !! (SRC ++ q) = Some Dir) qa
          ∧ NoDup qb ∧ (∀ q, q ∈ qb ↔ replica_only_top SRC REP (fs w) q)
          ∧ Forall (copy_entry SRC rp mB) es
          ∧ Forall (λ q, q ≠ [] ∧ is_file_at mB (REP ++ q)
                         ∧ mB !! (SRC ++ q) = None) qd
  | Raise _ _ => True
  end.
Proof.
  intros Hwf Hsrc Hrep [Hnd Hempty].
  unfold lists_of in Hnd, Hempty.
  apply NoDup_cons in Hnd as [Hn1 Hnd]. apply NoDup_cons in Hnd as [Hn2 Hnd].
  apply NoDup_cons in Hnd as [Hn3 _].
  assert (source_folders self ≠ replica_folders self) as Hab.
  { intros E. apply Hn1. rewrite E. by left. }
  assert (source_folders self ≠ source_files self) as Hac.
  { intros E. apply Hn1. rewrite E. right. by left. }
  assert (source_folders self ≠ replica_files self) as Had.
  { intros E. apply Hn1. rewrite E. do 2 right. by left. }
  assert (replica_folders self ≠ source_files self) as Hbc.
  { intros E. apply Hn2. rewrite E. by left. }
  assert (replica_folders self ≠ replica_files self) as Hbd.
  { intros E. apply Hn2. rewrite E. right. by left. }
  assert (source_files self ≠ replica_files self) as Hcd.
  { intros E. apply Hn3. rewrite E. by left. }
  unfold full_sync.
  opose proof (sync_folders_spec w Hwf Hsrc Hrep Hab _ _) as HF.
  { apply Hempty. by left. }
  { apply Hempty. right. by left. }
  unfold bind at 1.
  destruct (sync_folders self w) as [[] wB|e wB]; [| done].
  destruct HF as (HFS & HhB & qa & qb & HlgB & Hqa & Hqb1 & Hqb2).
  pose proof HFS as (HwfB & HsB & HrB & _).
  opose proof (sync_files_spec wB HwfB _ HrB Hcd _ _) as HG.
  { rewrite <- (app_nil_r SRC), HsB. by rewrite app_nil_r. }
  { rewrite HhB by done. apply Hempty. do 2 right. by left. }
  { rewrite HhB by done. apply Hempty. do 3 right. by left. }
  unfold bind at 1.
  destruct (sync_files self wB) as [[] wD|e wD]; [| done].
  destruct HG as (HGS & HhD & es & qd & HlgD & Hes & Hqd).
  unfold bind, list_new, ret. simpl.
  split_and!; [done | done | |].
  - split.
    + unfold lists_of. simpl. rewrite !length_app. simpl.
      repeat (apply NoDup_cons; split;
              [rewrite ?not_elem_of_cons, ?elem_of_nil; lia |]).
      constructor.
    + unfold lists_of. simpl. rewrite !length_app. simpl.
      intros l Hl. rewrite !elem_of_cons, elem_of_nil in Hl.
      destruct Hl as [-> | [-> | [-> | [-> | []]]]].
      * rewrite <- !app_assoc. by rewrite lookup_app_r, Nat.sub_diag by lia.
      * rewrite <- !app_assoc. rewrite lookup_app_r by lia.
        by replace (_ - _)%nat with 2%nat by lia.
      * rewrite <- !app_assoc. rewrite lookup_app_r by lia.
        by replace (_ - _)%nat with 1%nat by lia.
      * rewrite <- !app_assoc. rewrite lookup_app_r by lia.
        by replace (_ - _)%nat with 3%nat by lia.
  - exists (fs wB), qa, qb, es, qd. split_and!; try done.
    rewrite HlgD, HlgB, <- !app_assoc. done.
Qed.

(** *** After a cycle the two trees agree *)



(** *** A cycle over trees that agree changes nothing *)






(** *** The claims about one cycle *)





(** *** Further properties of one cycle *)










(** X12: every entry a cycle adds to the log is a CREATED, MODIFIED or
    REMOVED entry for a path below the replica root; nothing is logged about
    the source tree or the roots themselves. *)
Theorem log_names_replica_paths w self' w' :
  wf_fs (fs w) → fs w !! SRC = Some Dir → fs w !! REP = Some Dir →
  lists_ready self w →
  full_sync self w = Return self' w' →
  ∃ es, log w' = log w ++ es
        ∧ ∀ e, e ∈ es →
            (le_action e = "CREATED" ∨ le_action e = "MODIFIED"
             ∨ le_action e = "REMOVED")
            ∧ ∃ q, q ≠ [] ∧ valid_names q ∧ le_path e = rp q
                   ∧ components (le_path e) = REP ++ q.
Proof.
  intros Hwf Hsrc Hrep Hready Hfull.
  pose proof (full_sync_spec w Hwf Hsrc Hrep Hready) as H.
  rewrite Hfull in H.
  destruct H as (_ & _ & _ & mB & qa & qb & es & qd & HFS & HGS & Hlog
                 & Hqa & _ & Hqb & Hes & Hqd).
  destruct HFS as (HwfB & _).
  eexists. split; [exact Hlog |].
  assert (∀ m q nd, wf_fs m → m !! (SRC ++ q) = Some nd → valid_names q)
    as Hvs.
  { intros m q nd Hm Hq. eapply valid_names_app_r, wf_fs_names; done. }
  assert (∀ m q nd, wf_fs m → m !! (REP ++ q) = Some nd → valid_names q)
    as Hvr.
  { intros m q nd Hm Hq. eapply valid_names_app_r, wf_fs_names; done. }
  rewrite Forall_forall in Hqa. rewrite Forall_forall in Hes.
  rewrite Forall_forall in Hqd.
  intros e He. rewrite !elem_of_app in He.
  destruct He as [He|[He|[He|He]]].
  - apply list_elem_of_fmap in He as (q & -> & Hq).
    destruct (Hqa q Hq) as [Nq Hqs]. split; [by left |].
    pose proof (Hvs _ _ _ Hwf Hqs) as Hv.
    exists q. simpl. split_and!; [done.. |]. by apply components_rp.
  - apply list_elem_of_fmap in He as (q & -> & Hq).
    apply Hqb in Hq as (Nq & Hqr & _). split; [by do 2 right |].
    pose proof (Hvr _ _ _ Hwf Hqr) as Hv.
    exists q. simpl. split_and!; [done.. |]. by apply components_rp.
  - destruct (Hes e He) as (q & ds & ss & Nq & Hqs & Hp & Ha).
    split; [destruct Ha; auto |].
    pose proof (Hvs _ _ _ HwfB Hqs) as Hv.
    exists q. rewrite Hp. split_and!; [done.. |]. by apply components_rp.
  - apply list_elem_of_fmap in He as (q & -> & Hq).
    destruct (Hqd q Hq) as (Nq & (d & s & Hqr) & _). split; [by do 2 right |].
    pose proof (Hvr _ _ _ HwfB Hqr) as Hv.
    exists q. simpl. split_and!; [done.. |]. by apply components_rp.
Qed.

End Cycle.

(** ** Every change is logged once *)

Lemma logged_refl w : logged w w.
Proof. exists []. simpl. by rewrite !app_nil_r. Qed.

Lemma logged_trans w1 w2 w3 : logged w1 w2 → logged w2 w3 → logged w1 w3.
Proof.
  intros (ms1 & Hc1 & Hl1) (ms2 & Hc2 & Hl2). exists (ms1 ++ ms2).
  rewrite Hc2, Hc1, Hl2, Hl1, bind_app, fmap_app, <- !app_assoc. done.
Qed.

Lemma quiet_logs {A} (m : M A) : quiet m → logs m.
Proof.
  intros H w a w' Hm. destruct (H w a w' Hm) as [Hc Hl].
  exists []. simpl. by rewrite !app_nil_r.
Qed.

Lemma bind_inv {A B} (m : M A) (k : A → M B) w b w'' :
  bind m k w = Return b w'' → ∃ a w', m w = Return a w' ∧ k a w' = Return b w''.
Proof.
  unfold bind. destruct (m w) as [a w'|e w']; [| done]. intros H.
  by exists a, w'.
Qed.

Lemma logs_bind {A B} (m : M A) (k : A → M B) :
  logs m → (∀ a, logs (k a)) → logs (bind m k).
Proof.
  intros Hm Hk w b w'' (a & w' & H1 & H2)%bind_inv.
  eapply logged_trans; [by eapply Hm | by eapply Hk].
Qed.

Lemma quiet_bind {A B} (m : M A) (k : A → M B) :
  quiet m → (∀ a, quiet (k a)) → quiet (bind m k).
Proof.
  intros Hm Hk w b w'' (a & w' & H1 & H2)%bind_inv.
  destruct (Hm _ _ _ H1) as [Hc Hl], (Hk _ _ _ _ H2) as [Hc' Hl'].
  split; congruence.
Qed.

Lemma quiet_ret {A} (a : A) : quiet (ret a).
Proof. intros w a' w' [= _ <-]. done. Qed.

Lemma quiet_pure {A} (f : world → A) : quiet (λ w, Return (f w) w).
Proof. intros w a' w' [= _ <-]. done. Qed.

Lemma quiet_for_each {A} (xs : list A) body :
  (∀ x, quiet (body x)) → quiet (for_each xs body).
Proof.
  intros H. induction xs as [|x xs IH]; simpl; [apply quiet_ret |].
  apply quiet_bind; [apply H | done].
Qed.

Lemma logs_for_each {A} (xs : list A) body :
  (∀ x, logs (body x)) → logs (for_each xs body).
Proof.
  intros H. induction xs as [|x xs IH]; simpl.
  - apply quiet_logs, quiet_ret.
  - apply logs_bind; [apply H | done].
Qed.

Lemma quiet_list_read l : quiet (list_read l).
Proof. apply quiet_pure. Qed.

Lemma quiet_list_len l : quiet (list_len l).
Proof.
  apply quiet_bind; [apply quiet_list_read | intros; apply quiet_ret].
Qed.

Lemma quiet_list_get l i : quiet (list_get l i).
Proof.
  apply quiet_bind; [apply quiet_list_read |]. intros xs.
  destruct (xs !! i); [apply quiet_ret | done].
Qed.

Lemma quiet_list_append l x : quiet (list_append l x).
Proof. intros w a w' [= _ <-]. done. Qed.

Lemma quiet_list_new xs : quiet (list_new xs).
Proof. intros w a w' [= _ <-]. done. Qed.

Lemma quiet_os_path_exists p : quiet (os_path_exists p).
Proof. apply quiet_pure. Qed.

Lemma quiet_os_scandir p : quiet (os_scandir p).
Proof.
  intros w a w'. unfold os_scandir.
  destruct (lookup_path (fs w) p) as [[|??]|]; [| done..].
  intros [= _ <-]. done.
Qed.

Lemma Return_world {A} (a a' : A) (w w' : world) :
  Return a w = Return a' w' → w' = w.
Proof. by intros [= _ ->]. Qed.

Lemma quiet_hash_file p : quiet (hash_file p).
Proof.
  intros w a w'. unfold hash_file.
  destruct (lookup_path (fs w) p) as [[|??]|]; [done | | done].
  by intros ->%Return_world.
Qed.

Lemma quiet_compare_files self a b : quiet (compare_files self a b).
Proof.
  apply quiet_bind; [apply quiet_hash_file | intros].
  apply quiet_bind; [apply quiet_hash_file | intros; apply quiet_ret].
Qed.

Lemma quiet_list_dirs_from fuel self l p : quiet (list_dirs_from fuel self l p).
Proof.
  revert p. induction fuel as [|fuel IH]; intros p; [done |]. simpl.
  apply quiet_bind; [apply quiet_os_scandir | intros entries].
  apply quiet_bind; [| intros; apply quiet_ret].
  apply quiet_for_each. intros e.
  destruct (is_dir (entry_node e)); [| apply quiet_ret].
  apply quiet_bind; [apply quiet_list_append | intros].
  apply quiet_bind; [apply IH | intros; apply quiet_ret].
Qed.

Lemma quiet_list_files_from fuel self l p :
  quiet (list_files_from fuel self l p).
Proof.
  revert p. induction fuel as [|fuel IH]; intros p; [done |]. simpl.
  apply quiet_bind; [apply quiet_os_scandir | intros entries].
  apply quiet_bind; [| intros; apply quiet_ret].
  apply quiet_for_each. intros e.
  destruct (is_file (entry_node e)); [apply quiet_list_append |].
  destruct (is_dir (entry_node e)); [| apply quiet_ret].
  apply quiet_bind; [apply IH | intros; apply quiet_ret].
Qed.

Lemma quiet_list_dirs self l p : quiet (list_dirs self l p).
Proof. intros w a w'. apply quiet_list_dirs_from. Qed.

Lemma quiet_list_files self l p : quiet (list_files self l p).
Proof. intros w a w'. apply quiet_list_files_from. Qed.

Lemma logged_one c w w' :
  calls w' = calls w ++ prims c → log w' = log w ++ [entry c] → logged w w'.
Proof.
  intros Hc Hl. exists [c]. simpl. by rewrite app_nil_r.
Qed.

Lemma logs_mkdir self p lp :
  logs (os_mkdir p ;;; add_log self "CREATED" p lp).
Proof.
  intros w a w'' (a' & w' & H1 & H2)%bind_inv. unfold os_mkdir in H1.
  destruct (lookup_path (fs w) p); [done |].
  destruct (holder (fs w) (components p)) as [[|??]|]; [| done..].
  injection H1 as _ <-. injection H2 as _ <-.
  by apply (logged_one (MakeDir p)).
Qed.

Lemma logs_rmtree self p lp :
  logs (shutil_rmtree p ;;; add_log self "REMOVED" p lp).
Proof.
  intros w a w'' (a' & w' & H1 & H2)%bind_inv. unfold shutil_rmtree in H1.
  destruct (lookup_path (fs w) p) as [[|??]|]; [| done..].
  injection H1 as _ <-. injection H2 as _ <-.
  by apply (logged_one (RemoveTree p)).
Qed.

Lemma logs_remove self p lp :
  logs (os_remove p ;;; add_log self "REMOVED" p lp).
Proof.
  intros w a w'' (a' & w' & H1 & H2)%bind_inv. unfold os_remove in H1.
  destruct (lookup_path (fs w) p) as [[|??]|]; [done | | done].
  injection H1 as _ <-. injection H2 as _ <-.
  by apply (logged_one (RemoveFile p)).
Qed.

Lemma shutil_copy2_inv src dst w a w' :
  shutil_copy2 src dst w = Return a w' →
  calls w' = calls w ++ [Copy2 src dst] ∧ log w' = log w.
Proof.
  unfold shutil_copy2.
  destruct (lookup_path (fs w) src) as [[|??]|]; [done | | done].
  destruct (lookup_path (fs w) _) as [[|??]|]; [done | |].
  - destruct (bool_decide _); [done |]. by intros [= _ <-].
  - destruct (holder _ _) as [[|??]|]; [| done..]. by intros [= _ <-].
Qed.

Lemma logs_copy self src dst lp :
  logs (shutil_copy2 src dst ;;; add_log self "CREATED" dst lp).
Proof.
  intros w a w'' (a' & w' & H1 & H2)%bind_inv.
  apply shutil_copy2_inv in H1 as [Hc Hl]. injection H2 as _ <-.
  apply (logged_one (CopyNew src dst)); simpl; congruence.
Qed.

Lemma logs_replace self src dst lp :
  logs (os_remove dst ;;; shutil_copy2 src dst ;;;
        add_log self "MODIFIED" dst lp).
Proof.
  intros w a w''' (a' & w' & H1 & (a'' & w'' & H2 & H3)%bind_inv)%bind_inv.
  unfold os_remove in H1.
  destruct (lookup_path (fs w) dst) as [[|??]|]; [done | | done].
  injection H1 as _ <-.
  apply shutil_copy2_inv in H2 as [Hc Hl]. injection H3 as _ <-.
  apply (logged_one (Replace src dst)); simpl.
  - rewrite Hc. simpl. by rewrite <- app_assoc.
  - by rewrite Hl.
Qed.

Lemma logs_create_dir_step self l i : logs (create_dir_step self l i).
Proof.
  apply logs_bind; [apply quiet_logs, quiet_list_get | intros d].
  apply logs_bind; [apply quiet_logs, quiet_os_path_exists | intros b1].
  apply logs_bind; [apply quiet_logs, quiet_os_path_exists | intros b2].
  destruct (negb b1 && b2); [apply logs_mkdir | apply quiet_logs, quiet_ret].
Qed.

Lemma logs_delete_dir_step self l i : logs (delete_dir_step self l i).
Proof.
  apply logs_bind; [apply quiet_logs, quiet_list_get | intros d].
  apply logs_bind; [apply quiet_logs, quiet_os_path_exists | intros b1].
  apply logs_bind; [apply quiet_logs, quiet_os_path_exists | intros b2].
  destruct (b1 && negb b2); [apply logs_rmtree | apply quiet_logs, quiet_ret].
Qed.

Lemma logs_copy_file_step self l i : logs (copy_file_step self l i).
Proof.
  apply logs_bind; [apply quiet_logs, quiet_list_get | intros d]. cbv zeta.
  apply logs_bind; [apply quiet_logs, quiet_os_path_exists | intros b1].
  apply logs_bind; [apply quiet_logs, quiet_os_path_exists | intros b2].
  destruct (negb b1 && b2); [apply logs_copy |].
  destruct (b1 && b2); [| apply quiet_logs, quiet_ret].
  apply logs_bind; [apply quiet_logs, quiet_compare_files | intros same].
  destruct (negb same); [apply logs_replace | apply quiet_logs, quiet_ret].
Qed.

Lemma logs_delete_file_step self l i : logs (delete_file_step self l i).
Proof.
  apply logs_bind; [apply quiet_logs, quiet_list_get | intros d].
  apply logs_bind; [apply quiet_logs, quiet_os_path_exists | intros b1].
  apply logs_bind; [apply quiet_logs, quiet_os_path_exists | intros b2].
  destruct (b1 && negb b2); [apply logs_remove | apply quiet_logs, quiet_ret].
Qed.

Lemma logs_sync_folders self : logs (sync_folders self).
Proof.
  apply logs_bind; [apply quiet_logs, quiet_list_dirs | intros l1].
  apply logs_bind; [apply quiet_logs, quiet_list_dirs | intros l2].
  apply logs_bind; [apply quiet_logs, quiet_list_len | intros n1].
  apply logs_bind;
    [apply logs_for_each; intros; apply logs_create_dir_step | intros _].
  apply logs_bind; [apply quiet_logs, quiet_list_len | intros n2].
  apply logs_for_each; intros; apply logs_delete_dir_step.
Qed.

Lemma logs_sync_files self : logs (sync_files self).
Proof.
  apply logs_bind; [apply quiet_logs, quiet_list_files | intros l1].
  apply logs_bind; [apply quiet_logs, quiet_list_files | intros l2].
  apply logs_bind; [apply quiet_logs, quiet_list_len | intros n1].
  apply logs_bind;
    [apply logs_for_each; intros; apply logs_copy_file_step | intros _].
  apply logs_bind; [apply quiet_logs, quiet_list_len | intros n2].
  apply logs_for_each; intros; apply logs_delete_file_step.
Qed.

Lemma logs_full_sync self : logs (full_sync self).
Proof.
  apply logs_bind; [apply logs_sync_folders | intros _].
  apply logs_bind; [apply logs_sync_files | intros _].
  apply quiet_logs.
  repeat (apply quiet_bind; [apply quiet_list_new | intros]).
  apply quiet_ret.
Qed.

(** When [compare_files] finds the digests equal the step of the copy
    loop returns in the world it started in. *)
Lemma copy_file_step_same self l i w f :
  list_get l i w = Return f w →
  os_path_exists (os_path_join (replica_path self) f) w = Return true w →
  os_path_exists (os_path_join (source_path self) f) w = Return true w →
  compare_files self (os_path_join (replica_path self) f)
    (os_path_join (source_path self) f) w = Return true w →
  copy_file_step self l i w = Return tt w.
Proof.
  intros H1 H2 H3 H4. unfold copy_file_step.
  rewrite (bind_Return _ _ _ _ _ H1). cbv zeta.
  rewrite (bind_Return _ _ _ _ _ H2), (bind_Return _ _ _ _ _ H3). simpl.
  by rewrite (bind_Return _ _ _ _ _ H4).
Qed.

(** C7: when a cycle returns, the calls it made to the file system are
    those of a list of changes (make a directory, remove a tree, copy a new
    file, replace a file, remove a file) and the log grew by exactly one
    entry per change, in the same order; and a step of the copy loop whose
    comparison finds equal digests returns in the world it started in, so
    neither the replica nor the log has changed. *)
Theorem log_once_per_mutation self :
  (∀ w self' w', full_sync self w = Return self' w' →
     ∃ ms, calls w' = calls w ++ (ms ≫= prims)
           ∧ log w' = log w ++ (entry <$> ms))
  ∧ (∀ l i w f,
       list_get l i w = Return f w →
       os_path_exists (os_path_join (replica_path self) f) w = Return true w →
       os_path_exists (os_path_join (source_path self) f) w = Return true w →
       compare_files self (os_path_join (replica_path self) f)
         (os_path_join (source_path self) f) w = Return true w →
       copy_file_step self l i w = Return tt w).
Proof.
  split.
  - intros w self' w' H. exact (logs_full_sync self w self' w' H).
  - apply copy_file_step_same.
Qed.

(** ** A second cycle *)


(** ** The constructor *)

Lemma init_spec sp rp lp si a b c d w :
  is_Some (heap w !! a) → is_Some (heap w !! b) →
  is_Some (heap w !! c) → is_Some (heap w !! d) →
  __init__ sp rp lp si a b c d w
  = Return (MkSyncFiles sp rp lp si (length (heap w)) (S (length (heap w)))
              (S (S (length (heap w)))) (S (S (S (length (heap w))))))
      (set_heap (heap w ++ [default [] (heap w !! a); default [] (heap w !! b);
                            default [] (heap w !! c); default [] (heap w !! d)])
         w).
Proof.
  intros Ha Hb Hc Hd.
  apply lookup_lt_is_Some in Ha, Hb, Hc, Hd.
  unfold __init__, list_copy, list_new, list_read, bind, ret. simpl.
  rewrite !length_app. simpl.
  rewrite !(lookup_app_l _ _ b), !(lookup_app_l _ _ c), !(lookup_app_l _ _ d)
    by (rewrite ?length_app; simpl; lia).
  rewrite <- !app_assoc. simpl.
  do 3 f_equal; lia.
Qed.

Lemma init_fresh sp rp lp si a b c d w xa xb xc xd :
  heap w !! a = Some xa → heap w !! b = Some xb →
  heap w !! c = Some xc → heap w !! d = Some xd →
  ∃ self w',
    __init__ sp rp lp si a b c d w = Return self w'
    ∧ heap w' !! source_folders self = Some xa
    ∧ heap w' !! replica_folders self = Some xb
    ∧ heap w' !! source_files self = Some xc
    ∧ heap w' !! replica_files self = Some xd
    ∧ NoDup (lists_of self)
    ∧ (∀ l, l ∈ lists_of self ↔
            (length (heap w) ≤ l < length (heap w) + 4)%nat)
    ∧ length (heap w') = (length (heap w) + 4)%nat
    ∧ (∀ l, (l < length (heap w))%nat → heap w' !! l = heap w !! l)
    ∧ fs w' = fs w ∧ log w' = log w ∧ calls w' = calls w.
Proof.
  intros Ha Hb Hc Hd. eexists _, _. split.
  { apply init_spec; by eexists. }
  rewrite Ha, Hb, Hc, Hd. simpl. split_and!; try done.
  - by rewrite lookup_app_r, Nat.sub_diag by lia.
  - rewrite lookup_app_r by lia.
    by replace (_ - _)%nat with 1%nat by lia.
  - rewrite lookup_app_r by lia.
    by replace (_ - _)%nat with 2%nat by lia.
  - rewrite lookup_app_r by lia.
    by replace (_ - _)%nat with 3%nat by lia.
  - unfold lists_of. simpl.
    repeat (apply NoDup_cons; split;
            [rewrite ?not_elem_of_cons, ?elem_of_nil; lia |]).
    constructor.
  - intros l. unfold lists_of. simpl.
    rewrite !elem_of_cons, elem_of_nil. lia.
  - rewrite length_app. simpl. lia.
  - intros l Hl. by rewrite lookup_app_l.
Qed.

Lemma appends_frame (ls : list loc) (apps : list (loc * string)) w :
  ∃ w', for_each apps (λ a, list_append a.1 a.2) w = Return tt w'
        ∧ length (heap w') = length (heap w)
        ∧ (∀ l, l ∉ apps.*1 → heap w' !! l = heap w !! l)
        ∧ fs w' = fs w ∧ log w' = log w ∧ calls w' = calls w.
Proof.
  revert w. induction apps as [|[l x] apps IH]; intros w.
  - by exists w.
  - simpl. unfold bind, list_append at 1.
    destruct (IH (set_heap (alter (λ xs, xs ++ [x]) l (heap w)) w))
      as (w' & -> & Hlen & Hfr & Hf & Hl & Hc).
    exists w'. split_and!; try done.
    + by rewrite Hlen; simpl; rewrite length_alter.
    + intros l' Hl'. apply not_elem_of_cons in Hl' as [Hne Hl'].
      rewrite Hfr by done. simpl. by rewrite list_lookup_alter_ne.
Qed.

(** C10: [__init__] stores a copy of each list argument: the four lists of
    the new instance are four different objects that did not exist before
    and hold what the arguments hold, and no existing object is touched.
    Hence an instance built from the default arguments has four empty lists
    of its own; whatever is appended to them, the default lists stay empty,
    and a later construction again yields four empty lists, none of them a
    list of the first instance, whose lists it leaves as they are. *)
Theorem constructor_copies_lists dflt sp rp lp si w :
  (∀ l, l ∈ defaults_of dflt → heap w !! l = Some []) →
  (∀ a b c d xa xb xc xd,
     heap w !! a = Some xa → heap w !! b = Some xb →
     heap w !! c = Some xc → heap w !! d = Some xd →
     ∃ self w',
       __init__ sp rp lp si a b c d w = Return self w'
       ∧ heap w' !! source_folders self = Some xa
       ∧ heap w' !! replica_folders self = Some xb
       ∧ heap w' !! source_files self = Some xc
       ∧ heap w' !! replica_files self = Some xd
       ∧ NoDup (lists_of self)
       ∧ (∀ l, l ∈ lists_of self → heap w !! l = None)
       ∧ (∀ l, is_Some (heap w !! l) → heap w' !! l = heap w !! l))
  ∧ ∃ self w1,
      new_SyncFiles dflt sp rp lp si w = Return self w1
      ∧ lists_ready self w1
      ∧ (∀ l, l ∈ lists_of self → l ∉ defaults_of dflt)
      ∧ ∀ apps : list (loc * string),
          Forall (λ a, a.1 ∈ lists_of self) apps →
          ∃ w2,
            for_each apps (λ a, list_append a.1 a.2) w1 = Return tt w2
            ∧ (∀ l, l ∈ defaults_of dflt → heap w2 !! l = Some [])
            ∧ ∀ sp' rp' lp' si',
                ∃ self' w3,
                  new_SyncFiles dflt sp' rp' lp' si' w2 = Return self' w3
                  ∧ lists_ready self' w3
                  ∧ (∀ l, l ∈ lists_of self' → l ∉ lists_of self)
                  ∧ (∀ l, l ∈ lists_of self →
                          heap w3 !! l = heap w2 !! l).
Proof.
  intros Hd. split.
  - intros a b c d xa xb xc xd Ha Hb Hc Hd'.
    destruct (init_fresh sp rp lp si a b c d w xa xb xc xd Ha Hb Hc Hd')
      as (self & w' & H & H1 & H2 & H3 & H4 & Hnd & Hin & _ & Hold & _).
    exists self, w'. split_and!; try done.
    + intros l Hl%Hin. apply lookup_ge_None. lia.
    + intros l Hl%lookup_lt_is_Some. by apply Hold.
  - assert (∀ w, (∀ l, l ∈ defaults_of dflt → heap w !! l = Some []) →
              ∀ sp rp lp si, ∃ self w',
                new_SyncFiles dflt sp rp lp si w = Return self w'
                ∧ lists_ready self w'
                ∧ (∀ l, l ∈ lists_of self ↔
                        (length (heap w) ≤ l < length (heap w) + 4)%nat)
                ∧ length (heap w') = (length (heap w) + 4)%nat
                ∧ (∀ l, (l < length (heap w))%nat →
                        heap w' !! l = heap w !! l)) as Hnew.
    { clear. intros w Hd sp rp lp si. unfold new_SyncFiles.
      opose proof (init_fresh sp rp lp si _ _ _ _ w [] [] [] [] _ _ _ _)
        as (self & w' & H & H1 & H2 & H3 & H4 & Hnd & Hin & Hlen & Hold & _).
      5:{ exists self, w'. split; [exact H |]. split_and!; try done.
          split; [done |]. unfold lists_of. intros l.
          rewrite !elem_of_cons, elem_of_nil.
          intros [-> | [-> | [-> | [-> | []]]]]; done. }
      all: apply Hd; unfold defaults_of; rewrite !elem_of_cons; auto. }
    destruct (Hnew w Hd sp rp lp si) as (self & w1 & H & Hr & Hin & Hlen & Hold).
    assert (∀ l, l ∈ defaults_of dflt → (l < length (heap w))%nat) as Hdl.
    { intros l Hl. apply lookup_lt_is_Some. rewrite (Hd l Hl). by eexists. }
    exists self, w1. split_and!; try done.
    { intros l Hl%Hin Hl'%Hdl. lia. }
    intros apps Happs.
    destruct (appends_frame (lists_of self) apps w1)
      as (w2 & Hw2 & Hlen2 & Hfr & _).
    assert (∀ l, l ∈ defaults_of dflt → heap w2 !! l = Some []) as Hd2.
    { intros l Hl. rewrite Hfr.
      - rewrite Hold by by apply Hdl. by apply Hd.
      - intros (a & -> & Ha)%list_elem_of_fmap.
        rewrite Forall_forall in Happs. apply Happs, Hin in Ha.
        apply Hdl in Hl. lia. }
    exists w2. split_and!; try done.
    intros sp' rp' lp' si'.
    destruct (Hnew w2 Hd2 sp' rp' lp' si')
      as (self' & w3 & H' & Hr' & Hin' & Hlen' & Hold').
    exists self', w3. split_and!; try done.
    + intros l Hl%Hin' Hl'%Hin. lia.
    + intros l Hl%Hin. apply Hold'. lia.
Qed.

(** ** A root that is missing *)

Lemma sync_folders_missing_root self w :
  lookup_path (fs w) (source_path self) = None
  ∨ (wf_fs (fs w) ∧ open_ended (source_path self) = false
     ∧ fs w !! components (source_path self) = Some Dir
     ∧ lookup_path (fs w) (replica_path self) = None) →
  ∃ w', sync_folders self w = Raise FileNotFoundError w'
        ∧ fs w' = fs w ∧ log w' = log w ∧ calls w' = calls w.
Proof.
  intros [Hs|(Hwf & Ho & Hs & Hr)]; unfold sync_folders.
  - exists w. split; [| done].
    apply bind_Raise. by apply list_dirs_missing.
  - rewrite (bind_Return _ _ _ _ _
      (list_dirs_spec self _ (source_path self) w Hwf Ho Hs)).
    eexists. split; [apply bind_Raise, list_dirs_missing; exact Hr | done].
Qed.

(** C8, as the program behaves: when a cycle starts and the source root, or
    the replica root, is not there, [os.scandir] raises [FileNotFoundError]
    in [list_dirs]; nothing catches it, so it leaves [full_sync] and the
    [while] loop: the run ends with that exception however many further
    rounds were to come, having changed no file and logged nothing. *)
Theorem missing_root_ends_the_run rounds k dflt argv w :
  lookup_path (fs w) (argv !!! 1%nat) = None
  ∨ (wf_fs (fs w) ∧ open_ended (argv !!! 1%nat) = false
     ∧ fs w !! components (argv !!! 1%nat) = Some Dir
     ∧ lookup_path (fs w) (argv !!! 2%nat) = None) →
  ∃ w', main_loop (S rounds) k dflt argv w = Raise FileNotFoundError w'
        ∧ fs w' = fs w ∧ log w' = log w ∧ calls w' = calls w.
Proof.
  intros H. cbn [main_loop].
  unfold new_SyncFiles, __init__, list_copy, list_new, list_read.
  unfold bind at 1 2 3 4 5 6 7 8 9. unfold ret. cbn [heap set_heap].
  match goal with
  | |- context [bind (full_sync ?s) _ ?w0] =>
      destruct (sync_folders_missing_root s w0 H) as (w' & Hw & Hf & Hl & Hc);
      exists w'; split; [| done];
      apply bind_Raise; unfold full_sync; by apply bind_Raise
  end.
Qed.

(** ** The tests decide what they test *)

Lemma wf_check_sound m : wf_check m = true → wf_fs m.
Proof.
  unfold wf_check. intros [H1 H2]%andb_true_iff. split.
  - by destruct (m !! []) as [[|??]|].
  - intros q x Hq. rewrite forallb_forall in H2.
    apply (H2 (q, x)). apply list_elem_of_In. by apply elem_of_map_to_list.
Qed.

Lemma lists_check_sound self w : lists_check self w = true → lists_ready self w.
Proof.
  unfold lists_check. intros [H1 H2]%andb_true_iff. split.
  - by apply bool_decide_eq_true in H1.
  - intros l Hl. rewrite forallb_forall in H2.
    apply list_elem_of_In in Hl. by apply H2, bool_decide_eq_true in Hl.
Qed.

(** ** Further properties of the listing, the comparison and the start-up *)

Lemma valid_names_suffix (a b : list string) :
  valid_names (a ++ b) → valid_names b.
Proof. unfold valid_names. rewrite Forall_app. tauto. Qed.

Lemma dirs_below_names m d :
  wf_fs m →
  Forall valid_names (dirs_below m d) ∧ Forall (λ q, q ≠ []) (dirs_below m d).
Proof.
  intros Hwf. split; apply Forall_forall;
    intros q [Hn Hq]%elem_of_dirs_below; try done.
  eapply valid_names_suffix, wf_fs_names; [exact Hwf | exact Hq].
Qed.

Lemma files_below_names m d :
  wf_fs m →
  Forall valid_names (files_below m d) ∧ Forall (λ q, q ≠ []) (files_below m d).
Proof.
  intros Hwf. split; apply Forall_forall;
    intros q [Hn (ds & ss & Hq)]%elem_of_files_below; try done.
  eapply valid_names_suffix, wf_fs_names; [exact Hwf | exact Hq].
Qed.

Lemma names_of_rel_path p qs :
  good_root p → Forall valid_names qs → names_of p qs = rel_path <$> qs.
Proof.
  intros Hp Hqs. unfold names_of. apply Forall_fmap_ext_1.
  eapply Forall_impl; [exact Hqs |]. intros q Hq.
  by apply relative_name_path_of.
Qed.

Lemma rel_path_names (L : list (list string)) :
  Forall valid_names L → Forall (λ q, q ≠ []) L → NoDup L →
  NoDup (rel_path <$> L)
  ∧ ∀ q, valid_names q → q ≠ [] → (rel_path q ∈ rel_path <$> L ↔ q ∈ L).
Proof.
  intros Hv Hne Hnd. rewrite Forall_forall in Hv, Hne. split.
  - apply NoDup_fmap_2_strong; [| done].
    intros x y Hx Hy E. apply rel_path_inj; auto.
  - intros q Hq Nq. split; [| apply list_elem_of_fmap_2].
    intros (x & E & Hx)%list_elem_of_fmap.
    apply rel_path_inj in E; auto. by subst.
Qed.

(** X1: [list_dirs], given a root of the form [.\name] that is a
    directory, returns the list object it was given, having appended to what
    the list held the relative path of every directory below the root, each
    exactly once, and nothing else; the file system is as it was. *)
Theorem list_dirs_lists_each_directory_once self l p w xs :
  wf_fs (fs w) → good_root p → fs w !! components p = Some Dir →
  heap w !! l = Some xs →
  ∃ names w',
    list_dirs self l p w = Return l w'
    ∧ heap w' !! l = Some (xs ++ names)
    ∧ NoDup names
    ∧ (∀ q, valid_names q → q ≠ [] →
         (rel_path q ∈ names ↔ fs w !! (components p ++ q) = Some Dir))
    ∧ (∀ n, n ∈ names →
         ∃ q, n = rel_path q ∧ q ≠ []
              ∧ fs w !! (components p ++ q) = Some Dir)
    ∧ fs w' = fs w
    ∧ ∀ l', l' ≠ l → heap w' !! l' = heap w !! l'.
Proof.
  intros Hwf Hp Hd Hl.
  destruct (dirs_below_names (fs w) (components p) Hwf) as [Hv Hne].
  destruct (rel_path_names _ Hv Hne (NoDup_walk_dirs _ _ _)) as [Hnd Hin].
  exists (rel_path <$> dirs_below (fs w) (components p)). eexists. split_and!.
  - rewrite (list_dirs_spec self l p w Hwf (proj1 Hp) Hd).
    by rewrite names_of_rel_path.
  - by apply heap_appended_eq.
  - done.
  - intros q Hq Nq. rewrite Hin by done.
    rewrite elem_of_dirs_below by done. tauto.
  - intros n (q & -> & Hq)%list_elem_of_fmap. exists q.
    apply elem_of_dirs_below in Hq as [??]; done.
  - done.
  - intros l' Hl'. by apply heap_appended_ne.
Qed.

(** X2: [list_files], given a root of the form [.\name] that is a
    directory, returns the list object it was given, having appended the
    relative path of every regular file at any depth below the root, each
    exactly once, and no directory; the file system is as it was. *)
Theorem list_files_lists_each_file_once self l p w xs :
  wf_fs (fs w) → good_root p → fs w !! components p = Some Dir →
  heap w !! l = Some xs →
  ∃ names w',
    list_files self l p w = Return l w'
    ∧ heap w' !! l = Some (xs ++ names)
    ∧ NoDup names
    ∧ (∀ q, valid_names q → q ≠ [] →
         (rel_path q ∈ names ↔ is_file_at (fs w) (components p ++ q)))
    ∧ (∀ n, n ∈ names →
         ∃ q, n = rel_path q ∧ q ≠ []
              ∧ is_file_at (fs w) (components p ++ q))
    ∧ fs w' = fs w
    ∧ ∀ l', l' ≠ l → heap w' !! l' = heap w !! l'.
Proof.
  intros Hwf Hp Hd Hl.
  destruct (files_below_names (fs w) (components p) Hwf) as [Hv Hne].
  destruct (rel_path_names _ Hv Hne (NoDup_walk_files _ _ _)) as [Hnd Hin].
  exists (rel_path <$> files_below (fs w) (components p)). eexists. split_and!.
  - rewrite (list_files_spec self l p w Hwf (proj1 Hp) Hd).
    by rewrite names_of_rel_path.
  - by apply heap_appended_eq.
  - done.
  - intros q Hq Nq. rewrite Hin by done.
    rewrite elem_of_files_below by done. unfold is_file_at. tauto.
  - intros n (q & -> & Hq)%list_elem_of_fmap. exists q.
    apply elem_of_files_below in Hq as [??]; done.
  - done.
  - intros l' Hl'. by apply heap_appended_ne.
Qed.

(** X3: the name [list_dirs] and [list_files] append for the entry reached
    from the root [r] through the names [q] is what is left of the path's
    backslash-separated pieces after the first two.  It is the path of the
    entry relative to the root when the root has exactly two pieces; a root
    of one piece costs the entry its first name, and a root of more pieces
    leaves its own later pieces in front. *)
Theorem relative_name_drops_two_pieces r q :
  open_ended r = false → valid_names q →
  relative_name (path_of r q) = join backslash (drop 2 (split backslash r ++ q))
  ∧ (length (split backslash r) = 2%nat →
     relative_name (path_of r q) = rel_path q)
  ∧ (length (split backslash r) = 1%nat →
     relative_name (path_of r q) = rel_path (drop 1 q))
  ∧ (2 ≤ length (split backslash r) →
     relative_name (path_of r q)
     = join backslash (drop 2 (split backslash r) ++ q))%nat.
Proof.
  intros Ho Hq. rewrite (relative_name_any_root r q Ho Hq).
  split_and!; [done | | |]; intros Hlen; unfold rel_path; f_equal.
  - by rewrite drop_app_length'.
  - destruct (split backslash r) as [|a [|b l]]; simpl in *; try lia.
    by destruct q.
  - by rewrite drop_app_le.
Qed.





Lemma check_paths_found ps w :
  (∀ p, p ∈ ps → is_Some (lookup_path (fs w) (os_path_abspath p))) →
  for_each ps check_path w = Return tt w.
Proof.
  induction ps as [|p ps IH]; intros H; [done |].
  simpl. unfold bind at 1. unfold check_path at 1, bind, os_path_exists.
  rewrite bool_decide_eq_true_2 by (apply H; by left).
  apply IH. intros p' Hp'. apply H. by right.
Qed.

Lemma check_paths_missing ps w :
  (∃ p, p ∈ ps ∧ lookup_path (fs w) (os_path_abspath p) = None) →
  for_each ps check_path w = Raise FileNotFoundError w.
Proof.
  induction ps as [|p ps IH]; intros (p' & Hp' & Hnone).
  - by apply elem_of_nil in Hp'.
  - simpl. unfold bind at 1. unfold check_path at 1, bind, os_path_exists.
    destruct (lookup_path (fs w) (os_path_abspath p)) as [nd|] eqn:E.
    + rewrite bool_decide_eq_true_2 by by eexists.
      apply IH. exists p'. split; [| done].
      apply elem_of_cons in Hp' as [->|]; [congruence | done].
    + by rewrite bool_decide_eq_false_2 by by intros [??].
Qed.

(** X6: the start-up code refuses, before anything is listed, copied or
    logged, an argument count other than four ([TypeError]), a path
    argument that does not exist ([FileNotFoundError]) and an interval that
    fails [isnumeric] ([ValueError]); otherwise it enters the loop, in the
    world it started in. *)
Theorem startup_checks rounds dflt argv w :
  (length argv ≠ 5%nat → main rounds dflt argv w = Raise TypeError w)
  ∧ (length argv = 5%nat →
     (∃ p, p ∈ take 3 (drop 1 argv)
           ∧ lookup_path (fs w) (os_path_abspath p) = None) →
     main rounds dflt argv w = Raise FileNotFoundError w)
  ∧ (length argv = 5%nat →
     (∀ p, p ∈ take 3 (drop 1 argv) →
           is_Some (lookup_path (fs w) (os_path_abspath p))) →
     str_isnumeric (argv !!! 4%nat) = false →
     main rounds dflt argv w = Raise ValueError w)
  ∧ (length argv = 5%nat →
     (∀ p, p ∈ take 3 (drop 1 argv) →
           is_Some (lookup_path (fs w) (os_path_abspath p))) →
     str_isnumeric (argv !!! 4%nat) = true →
     main rounds dflt argv w = main_loop rounds 0 dflt argv w).
Proof.
  unfold main. split_and!.
  - intros Hlen. by rewrite decide_False.
  - intros Hlen Hmiss. rewrite decide_True by done.
    apply bind_Raise. by apply check_paths_missing.
  - intros Hlen Hall Hnum. rewrite decide_True by done.
    rewrite (bind_Return _ _ _ _ _ (check_paths_found _ w Hall)).
    rewrite Hnum. by apply bind_Raise.
  - intros Hlen Hall Hnum. rewrite decide_True by done.
    rewrite (bind_Return _ _ _ _ _ (check_paths_found _ w Hall)).
    by rewrite Hnum.
Qed.

(** ** The list objects a cycle touches, and the rounds of the loop *)



























End Platform.

End SyncTool.

(** * The program on the sample inputs *)

Lemma as_listed_perm (l : list (string * node)) : as_listed l ≡ₚ l.
Proof. reflexivity. Qed.

Lemma good_root_sample :
  good_root backslash ".\source" ∧ good_root backslash ".\replica".
Proof. by vm_compute. Qed.

Lemma separate_sample :
  separate (components backslash ".\source") (components backslash ".\replica").
Proof.
  split; intros [k Hk]; vm_compute in Hk; discriminate.
Qed.


(** C1: when the source has a directory where the replica has a file of
    the same name, the cycle returns having changed and logged nothing: the
    replica still has the file and not the directory. *)
Theorem kind_clash_is_left :
  ∃ self' w',
    full_sync backslash plain_digest as_listed sample_self clash_world
    = Return self' w'
    ∧ fs w' = clash_tree ∧ log w' = [] ∧ calls w' = []
    ∧ fs w' !! ["source"; "x"] = Some Dir
    ∧ fs w' !! ["replica"; "x"] = Some (File (content "old") stat_a).
Proof.
  eexists _, _. split; [vm_compute; reflexivity |].
    repeat split; vm_compute; reflexivity.
Qed.

(** C2: the listing drops the first two backslash-separated pieces of each
    entry's path, whatever the root.  For the root [source] the directory
    [a] is listed as the empty name and [a\b] as [b]; with the slash as
    separator and the root [./source] both are listed as the empty name.
    Joined to the replica root these names address the root itself, or
    another entry, and the cycle leaves the replica as it was. *)
Theorem relative_names_of_other_roots :
  (∃ w', list_dirs backslash as_listed bare_self 0 "source" bare_world
         = Return 0%nat w'
         ∧ heap w' !! 0%nat = Some [""; "b"])
  ∧ (∃ w', list_dirs slash as_listed posix_self 0 "./source" bare_world
           = Return 0%nat w'
           ∧ heap w' !! 0%nat = Some [""; ""])
  ∧ ∃ self' w',
      full_sync backslash plain_digest as_listed bare_self bare_world
      = Return self' w'
      ∧ fs w' = bare_tree ∧ log w' = [] ∧ fs w' !! ["replica"; "a"] = None.
Proof.
  split_and!.
  - eexists. split; [vm_compute; reflexivity |].
    repeat split; vm_compute; reflexivity.
  - eexists. split; [vm_compute; reflexivity |].
    repeat split; vm_compute; reflexivity.
  - eexists _, _. split; [vm_compute; reflexivity |].
    repeat split; vm_compute; reflexivity.
Qed.

(** C9: the superscript two passes [isnumeric] but is no argument for
    [int]: the start-up checks accept it, the first cycle runs and copies a
    file, and only then does the run end with [ValueError]. *)
Theorem interval_refused_after_first_cycle :
  str_isnumeric superscript_two = true
  ∧ int_of_str superscript_two = None
  ∧ ∃ w',
      main backslash plain_digest as_listed undisturbed 1 sample_defaults
        odd_argv run_world
      = Raise ValueError w'
      ∧ log w' = [LogEntry "CREATED" ".\replica\f.txt"]
      ∧ calls w' = [Copy2 ".\source\f.txt" ".\replica\f.txt"].
Proof.
  split_and!; [vm_compute; reflexivity.. |].
  eexists. split; [vm_compute; reflexivity |].
    repeat split; vm_compute; reflexivity.
Qed.

(** C8, the run that contradicts the claim: the source directory is
    removed during the first pause and would be back after the second, but
    the second cycle ends the run with [FileNotFoundError]; no third cycle
    takes place. *)
Theorem run_ends_when_source_vanishes :
  ∃ w',
    main backslash plain_digest as_listed source_away_then_back 3
      sample_defaults run_argv run_world
    = Raise FileNotFoundError w'
    ∧ log w' = [LogEntry "CREATED" ".\replica\f.txt"]
    ∧ fs w' !! ["source"] = None
    ∧ source_away_then_back 1 (fs w') !! ["source"] = Some Dir.
Proof.
  eexists. split; [vm_compute; reflexivity |].
    repeat split; vm_compute; reflexivity.
Qed.

(** ** The theorems at work *)





Lemma log_once_per_mutation_witness :
  ∃ self' w',
    full_sync backslash plain_digest as_listed sample_self nested_world
    = Return self' w'
    ∧ ∃ ms, calls w' = calls nested_world ++ (ms ≫= prims)
            ∧ log w' = log nested_world ++ (entry <$> ms).
Proof.
  destruct (full_sync backslash plain_digest as_listed sample_self nested_world)
    as [self' w'|e w'] eqn:E; [| vm_compute in E; discriminate].
  exists self', w'. split; [reflexivity |].
  exact (proj1 (log_once_per_mutation backslash plain_digest as_listed
                  sample_self) nested_world self' w' E).
Defined.

Lemma missing_root_ends_the_run_witness :
  ∃ w',
    main_loop backslash plain_digest as_listed undisturbed 3 0 sample_defaults
      run_argv gone_world
    = Raise FileNotFoundError w'
    ∧ fs w' = fs gone_world ∧ log w' = log gone_world
    ∧ calls w' = calls gone_world.
Proof.
  apply (missing_root_ends_the_run backslash plain_digest as_listed undisturbed
           eq_refl as_listed_perm 2 0 sample_defaults run_argv gone_world).
  left. vm_compute. reflexivity.
Defined.

Lemma constructor_copies_lists_witness :
  ∃ self w1,
    new_SyncFiles sample_defaults ".\source" ".\replica" "log.txt" "5"
      nested_world
    = Return self w1
    ∧ lists_ready self w1
    ∧ ∀ l, l ∈ lists_of self → l ∉ defaults_of sample_defaults.
Proof.
  destruct (constructor_copies_lists sample_defaults ".\source" ".\replica"
              "log.txt" "5" nested_world) as [_ (self & w1 & H1 & H2 & H3 & _)].
  - intros l Hl.
    repeat (apply elem_of_cons in Hl as [->|Hl]; [reflexivity |]).
    by apply elem_of_nil in Hl.
  - by exists self, w1.
Defined.

(** ** The further properties at work *)

Lemma list_dirs_lists_each_directory_once_witness :
  ∃ names w',
    list_dirs backslash as_listed sample_self 0 ".\source" nested_world
    = Return 0%nat w'
    ∧ heap w' !! 0%nat = Some ([] ++ names)
    ∧ NoDup names.
Proof.
  destruct (list_dirs_lists_each_directory_once backslash as_listed undisturbed
              eq_refl as_listed_perm sample_self 0 ".\source" nested_world [])
    as (names & w' & H1 & H2 & H3 & _).
  - apply wf_check_sound. vm_compute. reflexivity.
  - apply good_root_sample.
  - vm_compute. reflexivity.
  - reflexivity.
  - exists names, w'. split_and!; assumption.
Defined.

Lemma list_files_lists_each_file_once_witness :
  ∃ names w',
    list_files backslash as_listed sample_self 2 ".\source" nested_world
    = Return 2%nat w'
    ∧ heap w' !! 2%nat = Some ([] ++ names)
    ∧ NoDup names
    ∧ rel_path ["a"; "b"; "c"; "file.txt"] ∈ names.
Proof.
  destruct (list_files_lists_each_file_once backslash as_listed undisturbed
              eq_refl as_listed_perm sample_self 2 ".\source" nested_world [])
    as (names & w' & H1 & H2 & H3 & H4 & _).
  - apply wf_check_sound. vm_compute. reflexivity.
  - apply good_root_sample.
  - vm_compute. reflexivity.
  - reflexivity.
  - exists names, w'. split_and!; [done.. |].
    apply H4; [by repeat constructor | discriminate |].
    eexists _, _. vm_compute. reflexivity.
Defined.

Lemma relative_name_drops_two_pieces_witness :
  relative_name (path_of backslash "source" ["a"; "b"]) = rel_path (drop 1 ["a"; "b"]).
Proof.
  refine (proj1 (proj2 (proj2
            (relative_name_drops_two_pieces backslash eq_refl "source"
               ["a"; "b"] _ _))) _).
  - vm_compute. reflexivity.
  - by repeat constructor.
  - vm_compute. reflexivity.
Defined.



Lemma startup_checks_witness :
  main backslash plain_digest as_listed undisturbed 1 sample_defaults run_argv
    gone_world
  = Raise FileNotFoundError gone_world.
Proof.
  refine (proj1 (proj2 (startup_checks backslash plain_digest as_listed
                          undisturbed 1 sample_defaults run_argv gone_world))
            _ _).
  - reflexivity.
  - exists ".\source". split; [by left | vm_compute; reflexivity].
Defined.









Lemma log_names_replica_paths_witness :
  ∃ self' w' es,
    full_sync backslash plain_digest as_listed sample_self nested_world
    = Return self' w'
    ∧ log w' = log nested_world ++ es
    ∧ ∀ e, e ∈ es →
        ∃ q, q ≠ []
             ∧ components backslash (le_path e)
               = components backslash (replica_path sample_self) ++ q.
Proof.
  destruct (full_sync backslash plain_digest as_listed sample_self nested_world)
    as [self' w'|e w'] eqn:E; [| vm_compute in E; discriminate].
  destruct (log_names_replica_paths backslash plain_digest as_listed
              undisturbed eq_refl as_listed_perm sample_self
              (proj1 good_root_sample) (proj2 good_root_sample) separate_sample
              nested_world self' w') as (es & Hlog & Hes).
  - apply wf_check_sound. vm_compute. reflexivity.
  - vm_compute. reflexivity.
  - vm_compute. reflexivity.
  - apply lists_check_sound. vm_compute. reflexivity.
  - exact E.
  - exists self', w', es. split; [reflexivity |]. split; [exact Hlog |].
    intros e0 He. destruct (Hes e0 He) as (_ & q & Hq & _ & _ & Hc).
    exists q. split; assumption.
Defined.
